(** * Thread-safe console logging demo (thread.cpp): a shallow embedding

    The program has two global objects, the atomic counter [seq_counter]
    and the stream [std::cout].  Every function of the source is a state
    transformer over a [world] holding these two objects; the platform
    (system clock, time zone, thread identifiers, hardware concurrency) is
    an [env] that the functions only read.  The threads created by [main]
    are modelled by a step function driven by an arbitrary schedule. *)

From Stdlib Require Import ZArith List String Ascii Lia Permutation DecimalString.
From Stdlib Require DecimalPos DecimalZ.
From stdpp Require Import list.
Import ListNotations.

Local Open Scope Z_scope.

(** ** Text output primitives *)

Module Text.

Definition esc : ascii := ascii_of_nat 27.
Definition nl : ascii := ascii_of_nat 10.

(** Decimal text of an integer, as produced by [operator<<] on an integral
    value and by [std::to_string]: a minus sign for negatives, no padding. *)
Definition to_string (v : Z) : string := NilZero.string_of_int (Z.to_int v).

(** [os << setfill(c) << setw(w) << s] with the default (right) adjustment:
    the fill character is repeated in front of the text up to width [w];
    longer text is never cut. *)
Definition setw (fill : ascii) (w : nat) (s : string) : string :=
  (string_of_list_ascii (repeat fill (w - String.length s)) ++ s)%string.

(** Concatenation of all the pieces inserted into a stream. *)
Definition flatten (l : list string) : string := fold_right String.append EmptyString l.

End Text.

(** ** The platform *)

(** The fields of [struct tm] that [put_time] prints with ["%H:%M:%S"]. *)
Record tm := { tm_hour : Z; tm_min : Z; tm_sec : Z }.

(** The ranges the C library documents for these fields; [tm_sec] is 60
    during a leap second in a time zone that counts them. *)
Definition tm_in_range (t : tm) : Prop :=
  0 <= tm_hour t <= 23 /\ 0 <= tm_min t <= 59 /\ 0 <= tm_sec t <= 60.

(** [clock n] is the reading returned by the [n]-th call of
    [system_clock::now()] in the run, as a tick count since the epoch;
    [localtime t] is the broken-down local time that [localtime_r] (or
    [localtime_s]) stores for the [time_t] value [t], a function of the
    platform and its time zone, with fields in their documented ranges;
    [thread_id_text i] is the text [operator<<] prints for the identifier
    of thread [i] (thread 0 is the main thread); [hardware] is what
    [thread::hardware_concurrency()] returns, an unsigned value. *)
Record env := {
  clock : nat -> Z;
  localtime : Z -> tm;
  localtime_in_range : forall t, tm_in_range (localtime t);
  thread_id_text : nat -> string;
  hardware : N
}.

(** ** The global objects *)

(** [cout] records the insertions performed on [std::cout], oldest first,
    one entry per [operator<<] call.  [clock_reads] counts the calls of
    [system_clock::now()] made so far; it belongs to the platform, not to
    the program. *)
Record world := {
  seq_counter : Z;
  cout : list string;
  clock_reads : nat
}.

(** [atomic<int> seq_counter(1);] and nothing written yet. *)
Definition init_world : world :=
  {| seq_counter := 1; cout := []; clock_reads := 0 |}.

(** ** 32-bit [int] arithmetic *)

Definition int_bits : Z := 32.
Definition int_modulus : Z := 2 ^ int_bits.
Definition INT_MIN : Z := - 2 ^ (int_bits - 1).
Definition INT_MAX : Z := 2 ^ (int_bits - 1) - 1.

(** The value of type [int] congruent to [z] modulo 2^32. *)
Definition wrap_int (z : Z) : Z := (z - INT_MIN) mod int_modulus + INT_MIN.

(** ** State transformers *)

Definition M (A : Type) : Type := world -> A * world.

Definition ret {A} (a : A) : M A := fun w => (a, w).
Definition bind {A B} (c : M A) (k : A -> M B) : M B :=
  fun w => let (a, w') := c w in k a w'.

Declare Scope prog_scope.
Delimit Scope prog_scope with prog.
Notation "'let*' x := c 'in' k" := (bind c (fun x => k))
  (at level 10, x name, c at level 100, k at level 200) : prog_scope.
Notation "c >> k" := (bind c (fun _ => k))
  (at level 61, left associativity) : prog_scope.

(** [seq_counter.fetch_add(d)]: returns the old value and stores the sum,
    reduced to the range of [int]. *)
Definition fetch_add (d : Z) : M Z := fun w =>
  (seq_counter w,
   {| seq_counter := wrap_int (seq_counter w + d);
      cout := cout w;
      clock_reads := clock_reads w |}).

(** One [cout << s]. *)
Definition cout_insert (s : string) : M unit := fun w =>
  (tt, {| seq_counter := seq_counter w;
          cout := cout w ++ [s];
          clock_reads := clock_reads w |}).

(** [system_clock::now()]. *)
Definition system_clock_now (e : env) : M Z := fun w =>
  (clock e (clock_reads w),
   {| seq_counter := seq_counter w;
      cout := cout w;
      clock_reads := S (clock_reads w) |}).

(** ** current_timestamp *)

(** [system_clock::duration] counts nanoseconds. *)
Definition ticks_per_second : Z := 1000000000.
Definition ticks_per_milli : Z := 1000000.

(** [duration_cast<milliseconds>(d)]: integer division, truncating towards
    zero. *)
Definition duration_cast_milliseconds (d : Z) : Z := Z.quot d ticks_per_milli.

(** [system_clock::to_time_t(now)]: whole seconds, truncating towards zero. *)
Definition to_time_t (now : Z) : Z := Z.quot now ticks_per_second.

(** [put_time(&local_tm, "%H:%M:%S")]: each field as two decimal digits. *)
Definition put_time_HMS (t : tm) : string :=
  (Text.setw "0" 2 (Text.to_string (tm_hour t)) ++ ":" ++
   Text.setw "0" 2 (Text.to_string (tm_min t)) ++ ":" ++
   Text.setw "0" 2 (Text.to_string (tm_sec t)))%string.

(** The text built in the local [stringstream] from one clock reading. *)
Definition format_timestamp (e : env) (now : Z) : string :=
  let ms := Z.rem (duration_cast_milliseconds now) 1000 in
  let t_c := to_time_t now in
  let local_tm := localtime e t_c in
  (put_time_HMS local_tm ++ "." ++ Text.setw "0" 3 (Text.to_string ms))%string.

Definition current_timestamp (e : env) : M string :=
  (let* now := system_clock_now e in
   ret (format_timestamp e now))%prog.

(** ** print_thread_output *)

Definition separator : string := "---------------------------------".
Definition reset_code : string := String Text.esc "[0m".
Definition newline : string := String Text.nl "".

(** The content of the local [stringstream] of [print_thread_output]. *)
Definition compose_block (color ts : string) (seq : Z) (label func_name tid : string) : string :=
  (color ++ "[" ++ ts ++ "] " ++ "#" ++ Text.to_string seq ++ " [" ++ label ++ "]" ++ newline
   ++ "  Function : " ++ func_name ++ newline
   ++ "  Thread ID: " ++ tid ++ newline
   ++ separator ++ newline)%string.

(** [self] is the index of the calling thread. *)
Definition print_thread_output (e : env) (self : nat) (color label func_name : string) : M unit :=
  (let* seq := fetch_add 1 in
   let* ts := current_timestamp e in
   let ss := compose_block color ts seq label func_name (thread_id_text e self) in
   cout_insert ss >> cout_insert reset_code)%prog.

(** ** The worker tasks *)

Definition yellow : string := String Text.esc "[33m".
Definition green : string := String Text.esc "[32m".
Definition blue : string := String Text.esc "[34m".

Definition free_function (e : env) (self : nat) (id : Z) : M unit :=
  print_thread_output e self green ("free_function #" ++ Text.to_string id) "free_function".

Module Foo.

(** [__func__] inside a member function is the unqualified name. *)
Definition member_function (e : env) (self : nat) (id : Z) : M unit :=
  print_thread_output e self blue ("Foo::member_function #" ++ Text.to_string id) "member_function".

End Foo.

(** ** main, up to the creation of the first thread *)

(** The statements of [main] that run while the main thread is the only
    thread: its own log record, then the hardware-concurrency line.  The
    operands of the [<<] chain are evaluated left to right. *)
Definition main_startup (e : env) : M unit :=
  (print_thread_output e 0 yellow "main" "main" >>
   let size := hardware e in
   cout_insert "[" >>
   (let* ts := current_timestamp e in cout_insert ts) >>
   cout_insert "] " >>
   cout_insert "Hardware concurrency: " >>
   cout_insert (Text.to_string (Z.of_N size)) >>
   cout_insert newline >>
   cout_insert (separator ++ newline))%prog.

(** ** Repeated calls *)

(** [n] successive calls of [c] by a single caller, results in call order. *)
Fixpoint repeatM {A} (n : nat) (c : M A) : M (list A) :=
  match n with
  | O => ret []
  | S n' => (let* a := c in let* rest := repeatM n' c in ret (a :: rest))%prog
  end.

(** The sequence generator's only operation, [seq_counter.fetch_add(1)]. *)
Definition next : M Z := fetch_add 1.

(** The value returned by the call of [next] that is made after [k] earlier
    calls, in a program that starts with a fresh counter. *)
Definition nth_call (k : nat) : Z := fst (next (snd (repeatM k next init_world))).

(** The integers [a], [a+1], ..., [a+n-1]. *)
Definition zrange (a : Z) (n : nat) : list Z := map (fun k => a + Z.of_nat k) (seq 0 n).

(** ** The threads created by main *)

(** What [threads.emplace_back] is given: [(&Foo::member_function,
    &foos[obj], id)] or [(free_function, id)]. *)
Inductive task :=
  | MemberTask (obj : nat) (id : Z)
  | FreeTask (id : Z).

(** What [std::thread] runs for a task. *)
Definition task_body (e : env) (self : nat) (t : task) : M unit :=
  match t with
  | MemberTask _ id => Foo.member_function e self id
  | FreeTask id => free_function e self id
  end.

Definition task_color (t : task) : string :=
  match t with MemberTask _ _ => blue | FreeTask _ => green end.
Definition task_label (t : task) : string :=
  match t with
  | MemberTask _ id => "Foo::member_function #" ++ Text.to_string id
  | FreeTask id => "free_function #" ++ Text.to_string id
  end.
Definition task_func (t : task) : string :=
  match t with MemberTask _ _ => "member_function" | FreeTask _ => "free_function" end.

(** Where a worker thread stands inside [print_thread_output]: before the
    [fetch_add], before reading the clock, before inserting [ss.str()],
    before inserting the reset code, or returned. *)
Inductive wpc := AtFetch | AtStamp | AtBlock | AtReset | Finished.

(** A worker thread: its task, its thread index, its position and the
    locals [seq] and the timestamp text. *)
Record worker := {
  w_task : task;
  w_self : nat;
  w_pc : wpc;
  w_seq : Z;
  w_ts : string
}.

Definition new_worker (t : task) (self : nat) : worker :=
  {| w_task := t; w_self := self; w_pc := AtFetch; w_seq := 0; w_ts := "" |}.

Definition worker_block (e : env) (w : worker) : string :=
  compose_block (task_color (w_task w)) (w_ts w) (w_seq w)
    (task_label (w_task w)) (task_func (w_task w)) (thread_id_text e (w_self w)).

(** One atomic action of a worker on the global objects; [None] once it
    has returned. *)
Definition worker_step (e : env) (w : worker) (g : world) : option (worker * world) :=
  match w_pc w with
  | AtFetch =>
      let (seq, g') := fetch_add 1 g in
      Some ({| w_task := w_task w; w_self := w_self w; w_pc := AtStamp;
               w_seq := seq; w_ts := w_ts w |}, g')
  | AtStamp =>
      let (ts, g') := current_timestamp e g in
      Some ({| w_task := w_task w; w_self := w_self w; w_pc := AtBlock;
               w_seq := w_seq w; w_ts := ts |}, g')
  | AtBlock =>
      let (_, g') := cout_insert (worker_block e w) g in
      Some ({| w_task := w_task w; w_self := w_self w; w_pc := AtReset;
               w_seq := w_seq w; w_ts := w_ts w |}, g')
  | AtReset =>
      let (_, g') := cout_insert reset_code g in
      Some ({| w_task := w_task w; w_self := w_self w; w_pc := Finished;
               w_seq := w_seq w; w_ts := w_ts w |}, g')
  | Finished => None
  end.

Definition foo_count : nat := 4.
Definition free_count : nat := 3.

(** The whole program once [main] reaches its first loop: the global
    objects, the number of loop iterations [main] has completed, and the
    vector [threads]. *)
Record config := {
  globals : world;
  main_pc : nat;
  threads : list worker
}.

(** [threads.emplace_back(...)]: the new thread may run from now on. *)
Definition spawn (t : task) (c : config) : config :=
  {| globals := globals c;
     main_pc := S (main_pc c);
     threads := threads c ++ [new_worker t (S (length (threads c)))] |}.

(** One iteration of one of the three loops of [main]: the first
    [foo_count] iterations create the member-function threads, the next
    [free_count] the free-function threads, the following ones join the
    elements of [threads] in order.  A join of a thread that has not
    returned cannot proceed; after the last element [main] returns. *)
Definition main_step (c : config) : option config :=
  let k := main_pc c in
  if (k <? foo_count)%nat then
    Some (spawn (MemberTask k (Z.of_nat k + 1)) c)
  else if (k <? foo_count + free_count)%nat then
    Some (spawn (FreeTask (Z.of_nat (k - foo_count) + 1)) c)
  else
    match threads c !! (k - (foo_count + free_count))%nat with
    | Some w =>
        match w_pc w with
        | Finished => Some {| globals := globals c; main_pc := S k; threads := threads c |}
        | _ => None
        end
    | None => None
    end.

Definition main_returned (c : config) : bool :=
  (foo_count + free_count <=? main_pc c)%nat &&
  (length (threads c) <=? main_pc c - (foo_count + free_count))%nat.

(** One action of the thread the scheduler picks: 0 is the main thread,
    [S j] is [threads[j]]. *)
Definition step (e : env) (c : config) (i : nat) : option config :=
  match i with
  | O => main_step c
  | S j =>
      match threads c !! j with
      | Some w =>
          match worker_step e w (globals c) with
          | Some (w', g') =>
              Some {| globals := g'; main_pc := main_pc c; threads := <[j:=w']> (threads c) |}
          | None => None
          end
      | None => None
      end
  end.

Fixpoint exec (e : env) (sched : list nat) (c : config) : option config :=
  match sched with
  | [] => Some c
  | i :: rest =>
      match step e c i with
      | Some c' => exec e rest c'
      | None => None
      end
  end.

(** The program when [main] is about to create its first thread. *)
Definition boot (e : env) : config :=
  {| globals := snd (main_startup e init_world); main_pc := 0; threads := [] |}.

(** The pieces of the hardware-concurrency line. *)
Definition hardware_line (e : env) : list string :=
  ["["; format_timestamp e (clock e 1); "] "; "Hardware concurrency: ";
   Text.to_string (Z.of_N (hardware e)); newline; separator ++ newline]%string.

(** ** Reading a timestamp back *)

Definition digit_char (d : Z) : ascii := ascii_of_nat (48 + Z.to_nat d).

Definition digit_of (c : ascii) : option Z :=
  let n := Z.of_nat (nat_of_ascii c) in
  if (48 <=? n) && (n <=? 57) then Some (n - 48) else None.

Fixpoint number_of (cs : list ascii) (acc : Z) : option Z :=
  match cs with
  | [] => Some acc
  | c :: cs' =>
      match digit_of c with
      | Some d => number_of cs' (10 * acc + d)
      | None => None
      end
  end.

(** The pattern [\d{2}:\d{2}:\d{2}\.\d{3}]: exactly twelve characters, decimal
    digits around the two colons and the dot.  The result is the four
    numbers read. *)
Definition parse_timestamp (s : string) : option (Z * Z * Z * Z) :=
  match list_ascii_of_string s with
  | [h1; h0; c1; m1; m0; c2; s1; s0; dot; f2; f1; f0] =>
      if (Ascii.eqb c1 ":" && Ascii.eqb c2 ":" && Ascii.eqb dot ".")%bool then
        match number_of [h1; h0] 0, number_of [m1; m0] 0,
              number_of [s1; s0] 0, number_of [f2; f1; f0] 0 with
        | Some h, Some m, Some sec, Some ms => Some (h, m, sec, ms)
        | _, _, _, _ => None
        end
      else None
  | _ => None
  end.

(** Local time in a zone that does not count leap seconds: the time of
    day of [local], the seconds since the epoch shifted by the UTC offset,
    with days of 86400 seconds. *)
Definition posix_tm (local : Z) : tm :=
  {| tm_hour := (local mod 86400) / 3600;
     tm_min := (local mod 3600) / 60;
     tm_sec := local mod 60 |}.

Definition posix_tm_in_range (local : Z) : tm_in_range (posix_tm local).
Proof.
  unfold tm_in_range, posix_tm. cbn [tm_hour tm_min tm_sec].
  repeat split; Z.div_mod_to_equations; lia.
Qed.

(** A platform for examples: readings one millisecond apart starting in
    2024, local time one hour ahead of UTC, eight hardware threads. *)
Definition sample_env : env :=
  {| clock := fun n => 1717245296789000000 + 1000000 * Z.of_nat n;
     localtime := fun t => posix_tm (t + 3600);
     localtime_in_range := fun t => posix_tm_in_range (t + 3600);
     thread_id_text := fun i => Text.to_string (140000 + Z.of_nat i);
     hardware := 8%N |}.

(** A schedule of the whole program: all seven threads are created, each
    runs to completion in turn (the last created first), then [main] joins. *)
Definition sample_schedule : list nat :=
  (repeat 0 7 ++ flat_map (fun j => repeat (S j) 4) [6; 5; 4; 3; 2; 1; 0] ++ repeat 0 7)%nat.

(** A schedule in which the threads take turns, one action each. *)
Definition round_robin_schedule : list nat :=
  (repeat 0 7 ++ concat (repeat [1; 2; 3; 4; 5; 6; 7] 4) ++ repeat 0 7)%nat.

(** ** Bookkeeping for the runs of the whole program *)

(** The sequence number a worker holds once its [fetch_add] is done. *)
Definition seq_taken (w : worker) : list Z :=
  match w_pc w with AtFetch => [] | _ => [w_seq w] end.

(** What a worker has inserted into [std::cout] so far. *)
Definition inserted_by (e : env) (w : worker) : list string :=
  match w_pc w with
  | AtReset => [worker_block e w]
  | Finished => [worker_block e w; reset_code]
  | _ => []
  end.

(** The tasks in the order in which [main] creates their threads. *)
Definition all_tasks : list task :=
  map (fun k => MemberTask k (Z.of_nat k + 1)) (seq 0 foo_count) ++
  map (fun k => FreeTask (Z.of_nat k + 1)) (seq 0 free_count).

Definition worker_count : nat := (foo_count + free_count)%nat.

(** What holds in every state the program can reach. *)
Record invariant (e : env) (c : config) : Prop := {
  inv_counter :
    seq_counter (globals c) = 2 + Z.of_nat (length (flat_map seq_taken (threads c)));
  inv_seqs :
    Permutation (flat_map seq_taken (threads c))
                (zrange 2 (length (flat_map seq_taken (threads c))));
  inv_cout :
    exists rest, cout (globals c) = cout (globals (boot e)) ++ rest /\
                 Permutation rest (flat_map (inserted_by e) (threads c));
  inv_tasks : map w_task (threads c) = firstn (main_pc c) all_tasks;
  inv_main : (main_pc c <= worker_count + length (threads c))%nat;
  inv_joined :
    forall j w, (j + worker_count < main_pc c)%nat ->
                threads c !! j = Some w -> w_pc w = Finished
}.

(** How many actions the threads have performed. *)
Definition pc_index (p : wpc) : nat :=
  match p with AtFetch => 0 | AtStamp => 1 | AtBlock => 2 | AtReset => 3 | Finished => 4 end.

Definition progress (c : config) : nat :=
  (main_pc c + list_sum (map (fun w => pc_index (w_pc w)) (threads c)))%nat.

(** [n] consecutive actions of one worker, nobody else running. *)
Fixpoint worker_run (e : env) (n : nat) (w : worker) (g : world) : worker * world :=
  match n with
  | O => (w, g)
  | S n' =>
      match worker_step e w g with
      | Some (w', g') => worker_run e n' w' g'
      | None => (w, g)
      end
  end.

(** A platform whose clock stands one millisecond before the epoch, local
    time being UTC. *)
Definition pre_epoch_env : env :=
  {| clock := fun _ => -1000000;
     localtime := fun t => posix_tm t;
     localtime_in_range := fun t => posix_tm_in_range t;
     thread_id_text := fun i => Text.to_string (Z.of_nat i);
     hardware := 1%N |}.

(** Local time in a zone that counts leap seconds (as the zone right/UTC
    does), around the leap second inserted at the end of 2016: [time_t]
    value 1483228826 is 23:59:60 of 31 December 2016, the values before it
    are 26 seconds ahead of the time of day, those after it 27. *)
Definition leap_localtime (t : Z) : tm :=
  if t =? 1483228826 then {| tm_hour := 23; tm_min := 59; tm_sec := 60 |}
  else if t <? 1483228826 then posix_tm (t - 26)
  else posix_tm (t - 27).

Definition leap_localtime_in_range (t : Z) : tm_in_range (leap_localtime t).
Proof.
  unfold leap_localtime. destruct (t =? 1483228826).
  - unfold tm_in_range. cbn [tm_hour tm_min tm_sec]. lia.
  - destruct (t <? 1483228826); apply posix_tm_in_range.
Qed.

(** A platform in that zone whose clock stands at the leap second. *)
Definition leap_second_env : env :=
  {| clock := fun _ => 1483228826000000000;
     localtime := leap_localtime;
     localtime_in_range := leap_localtime_in_range;
     thread_id_text := fun i => Text.to_string (Z.of_nat i);
     hardware := 1%N |}.

(** ** Texts as the specification describes them *)

(** A line feed. *)
Definition LF : string := String "010"%char EmptyString.

(** The lines of a text: the pieces between line feeds; the last element is
    what follows the last line feed. *)
Fixpoint split_lines (s : string) : list string :=
  match s with
  | EmptyString => [EmptyString]
  | String c s' =>
      if Ascii.eqb c "010" then EmptyString :: split_lines s'
      else match split_lines s' with
           | l :: ls => String c l :: ls
           | [] => [String c EmptyString]
           end
  end.

(** A non-empty run of decimal digits read as a number. *)
Definition read_decimal (s : string) : option Z :=
  match s with
  | EmptyString => None
  | _ => number_of (list_ascii_of_string s) 0
  end.

(** The literal structure of a log block (specification, section 6): the
    color code, then the four lines "[TIMESTAMP] #SEQ [LABEL]",
    "  Function : FUNC_NAME", "  Thread ID: THREAD_ID" and 33 dashes, each
    ended by a line feed. *)
Definition spec_block (color ts seq label func_name tid : string) : string :=
  (color ++ "[" ++ ts ++ "] #" ++ seq ++ " [" ++ label ++ "]" ++ LF
   ++ "  Function : " ++ func_name ++ LF
   ++ "  Thread ID: " ++ tid ++ LF
   ++ "---------------------------------" ++ LF)%string.

(** The color-reset sequence, ESC [ 0 m. *)
Definition spec_reset : string := String "027"%char "[0m".

(** Color, label and function name of the seven workers of the example
    scenario (specification, section 8): four object-bound ones in blue,
    three standalone ones in green. *)
Definition spec_workers : list (string * string * string) :=
  [(String "027"%char "[34m", "Foo::member_function #1", "member_function");
   (String "027"%char "[34m", "Foo::member_function #2", "member_function");
   (String "027"%char "[34m", "Foo::member_function #3", "member_function");
   (String "027"%char "[34m", "Foo::member_function #4", "member_function");
   (String "027"%char "[32m", "free_function #1", "free_function");
   (String "027"%char "[32m", "free_function #2", "free_function");
   (String "027"%char "[32m", "free_function #3", "free_function")]%string.

(** The number written by the decimal digits [d], read after the digits
    that gave [acc]. *)
Fixpoint uint_value (d : Decimal.uint) (acc : Z) : Z :=
  match d with
  | Decimal.Nil => acc
  | Decimal.D0 d => uint_value d (10 * acc)
  | Decimal.D1 d => uint_value d (10 * acc + 1)
  | Decimal.D2 d => uint_value d (10 * acc + 2)
  | Decimal.D3 d => uint_value d (10 * acc + 3)
  | Decimal.D4 d => uint_value d (10 * acc + 4)
  | Decimal.D5 d => uint_value d (10 * acc + 5)
  | Decimal.D6 d => uint_value d (10 * acc + 6)
  | Decimal.D7 d => uint_value d (10 * acc + 7)
  | Decimal.D8 d => uint_value d (10 * acc + 8)
  | Decimal.D9 d => uint_value d (10 * acc + 9)
  end.

(** The number of newline characters in a text. *)
Fixpoint newlines (s : string) : nat :=
  match s with
  | EmptyString => 0
  | String c s' => ((if Ascii.eqb c Text.nl then 1 else 0) + newlines s')%nat
  end.

(** The local time of day of a clock reading, in milliseconds since local
    midnight, in a zone with UTC offset [offset]. *)
Definition time_of_day_ms (offset : Z -> Z) (now : Z) : Z :=
  (now / ticks_per_milli + 1000 * offset (to_time_t now)) mod 86400000.

(** The platform's local time is that of a zone without leap seconds whose
    UTC offset, in seconds, at [time_t] value [t] is [offset t]. *)
Definition posix_zone (e : env) (offset : Z -> Z) : Prop :=
  forall t, localtime e t = posix_tm (t + offset t).

(** * Properties *)

(** ** Arithmetic of [int] *)

Section IntArith.

Lemma int_modulus_val : int_modulus = 4294967296.
Proof. reflexivity. Qed.

Lemma INT_MIN_val : INT_MIN = -2147483648.
Proof. reflexivity. Qed.

Lemma INT_MAX_val : INT_MAX = 2147483647.
Proof. reflexivity. Qed.

Lemma wrap_int_range (z : Z) : INT_MIN <= wrap_int z <= INT_MAX.
Proof.
  unfold wrap_int. rewrite INT_MIN_val, INT_MAX_val, int_modulus_val.
  pose proof (Z.mod_pos_bound (z - -2147483648) 4294967296). lia.
Qed.

Lemma wrap_int_small (z : Z) : INT_MIN <= z <= INT_MAX -> wrap_int z = z.
Proof.
  rewrite INT_MIN_val, INT_MAX_val. intros Hz.
  unfold wrap_int. rewrite INT_MIN_val, int_modulus_val.
  rewrite Z.mod_small by lia. lia.
Qed.

Lemma wrap_int_congr (a b : Z) :
  wrap_int a = wrap_int b <-> (a - b) mod int_modulus = 0.
Proof.
  unfold wrap_int.
  pose proof (Z.cong_iff_0 (a - INT_MIN) (b - INT_MIN) int_modulus) as H.
  replace (a - INT_MIN - (b - INT_MIN)) with (a - b) in H by lia.
  rewrite <- H. split; intros E; lia.
Qed.

Lemma wrap_int_idem_add (a b : Z) : wrap_int (wrap_int a + b) = wrap_int (a + b).
Proof.
  apply wrap_int_congr.
  replace (wrap_int a + b - (a + b)) with (wrap_int a - a) by lia.
  unfold wrap_int.
  replace ((a - INT_MIN) mod int_modulus + INT_MIN - a)
    with ((a - INT_MIN) mod int_modulus - (a - INT_MIN)) by lia.
  apply Z.cong_iff_0. apply Z.mod_mod. rewrite int_modulus_val. lia.
Qed.

End IntArith.

(** ** The sequence generator *)

Section Generator.

Lemma zrange_length a n : length (zrange a n) = n.
Proof. unfold zrange. now rewrite length_map, length_seq. Qed.

Lemma zrange_In a n v : In v (zrange a n) <-> a <= v < a + Z.of_nat n.
Proof.
  unfold zrange. rewrite in_map_iff. split.
  - intros (k & <- & Hk). apply in_seq in Hk. lia.
  - intros Hv. exists (Z.to_nat (v - a)). split; [lia | apply in_seq; lia].
Qed.

Lemma zrange_NoDup a n : List.NoDup (zrange a n).
Proof.
  unfold zrange. apply NoDup_map_NoDup_ForallPairs; [| apply seq_NoDup].
  intros i j _ _ Hij. lia.
Qed.

Lemma zrange_S a n : zrange a (S n) = zrange a n ++ [a + Z.of_nat n].
Proof. unfold zrange. rewrite seq_S, map_app. reflexivity. Qed.

Lemma repeatM_S {A} (n : nat) (c : M A) (w : world) :
  repeatM (S n) c w =
  let (a, w1) := c w in let (rest, w2) := repeatM n c w1 in (a :: rest, w2).
Proof. reflexivity. Qed.

Lemma next_run (w : world) :
  next w = (seq_counter w,
            {| seq_counter := wrap_int (seq_counter w + 1); cout := cout w;
               clock_reads := clock_reads w |}).
Proof. reflexivity. Qed.

(** The results of [n] successive calls, and the counter they leave. *)
Lemma repeatM_next_results (n : nat) : forall w,
  INT_MIN <= seq_counter w <= INT_MAX ->
  fst (repeatM n next w) = map (fun k => wrap_int (seq_counter w + Z.of_nat k)) (seq 0 n)
  /\ seq_counter (snd (repeatM n next w)) = wrap_int (seq_counter w + Z.of_nat n)
  /\ cout (snd (repeatM n next w)) = cout w.
Proof.
  induction n as [| n IH]; intros w Hw.
  - cbn [repeatM ret fst snd seq map]. rewrite Z.add_0_r, wrap_int_small by exact Hw. auto.
  - rewrite repeatM_S, next_run.
    set (w1 := {| seq_counter := wrap_int (seq_counter w + 1); cout := cout w;
                  clock_reads := clock_reads w |}).
    destruct (IH w1 (wrap_int_range _)) as (Hres & Hcnt & Hout).
    destruct (repeatM n next w1) as [rest w2]. cbn [fst snd] in *.
    subst w1. cbn [seq_counter cout] in *.
    split; [| split].
    + cbn [seq map]. rewrite Z.add_0_r, wrap_int_small by exact Hw. f_equal.
      rewrite Hres, <- seq_shift, map_map. apply map_ext. intros k.
      rewrite wrap_int_idem_add. f_equal. lia.
    + rewrite Hcnt, wrap_int_idem_add. f_equal. lia.
    + exact Hout.
Qed.

Lemma init_counter_in_range : INT_MIN <= seq_counter init_world <= INT_MAX.
Proof. cbn. rewrite INT_MIN_val, INT_MAX_val. lia. Qed.

Lemma nth_call_value (k : nat) : nth_call k = wrap_int (1 + Z.of_nat k).
Proof.
  unfold nth_call.
  destruct (repeatM_next_results k init_world init_counter_in_range) as (_ & Hcnt & _).
  unfold next, fetch_add. cbn [fst]. exact Hcnt.
Qed.

Lemma calls_from_init (n : nat) :
  fst (repeatM n next init_world) = map nth_call (seq 0 n).
Proof.
  destruct (repeatM_next_results n init_world init_counter_in_range) as (Hres & _ & _).
  rewrite Hres. apply map_ext. intros k. now rewrite nth_call_value.
Qed.

End Generator.

Section GeneratorBounds.

Lemma mod_zero_small (a : Z) :
  a mod int_modulus = 0 -> - int_modulus < a < int_modulus -> a = 0.
Proof.
  rewrite int_modulus_val. intros Hm Ha.
  pose proof (Z.div_mod a 4294967296 ltac:(lia)) as Hd.
  rewrite Hm in Hd. lia.
Qed.

Lemma nth_call_congr (i j : nat) :
  nth_call i = nth_call j <-> (Z.of_nat i - Z.of_nat j) mod int_modulus = 0.
Proof.
  rewrite !nth_call_value, wrap_int_congr.
  replace (1 + Z.of_nat i - (1 + Z.of_nat j)) with (Z.of_nat i - Z.of_nat j) by lia.
  reflexivity.
Qed.

Lemma nth_call_small (k : nat) : Z.of_nat k < INT_MAX -> nth_call k = 1 + Z.of_nat k.
Proof.
  rewrite INT_MAX_val. intros Hk. rewrite nth_call_value.
  apply wrap_int_small. rewrite INT_MIN_val, INT_MAX_val. lia.
Qed.

Lemma calls_NoDup_iff (n : nat) :
  List.NoDup (fst (repeatM n next init_world)) <-> Z.of_nat n <= int_modulus.
Proof.
  rewrite calls_from_init, int_modulus_val. split.
  - intros Hnd. destruct (Z_le_gt_dec (Z.of_nat n) 4294967296) as [Hle | Hgt]; [exact Hle |].
    exfalso. destruct n as [| m]; [lia |].
    cbn [seq map] in Hnd. apply NoDup_cons_iff in Hnd. destruct Hnd as [Hnotin _].
    apply Hnotin. apply in_map_iff.
    set (p := Z.to_nat 4294967296).
    assert (Hp : Z.of_nat p = 4294967296)
      by exact (Z2Nat.id 4294967296 (Pos2Z.is_nonneg 4294967296)).
    clearbody p. exists p. split.
    + apply nth_call_congr. rewrite Hp. reflexivity.
    + apply in_seq. lia.
  - intros Hle. apply NoDup_map_NoDup_ForallPairs; [| apply seq_NoDup].
    intros i j Hi Hj Heq. apply in_seq in Hi, Hj.
    apply nth_call_congr in Heq. apply mod_zero_small in Heq.
    + lia.
    + rewrite int_modulus_val. lia.
Qed.

(** C1, as amended: the counter starts at 1 and, as long as the number N of
    calls made by a single caller on a fresh generator does not exceed
    INT_MAX = 2^31 - 1, the calls return 1, 2, ..., N in this order; the
    returned values are pairwise distinct and are exactly the integers
    from 1 to N. *)
Theorem next_yields_1_to_N (n : nat) :
  Z.of_nat n <= INT_MAX ->
  seq_counter init_world = 1 /\
  fst (repeatM n next init_world) = zrange 1 n /\
  List.NoDup (fst (repeatM n next init_world)) /\
  (forall v, In v (fst (repeatM n next init_world)) <-> 1 <= v <= Z.of_nat n).
Proof.
  intros Hn.
  assert (Hlist : fst (repeatM n next init_world) = zrange 1 n).
  { rewrite calls_from_init. unfold zrange. apply map_ext_in.
    intros k Hk. apply in_seq in Hk. apply nth_call_small. lia. }
  split; [reflexivity |]. split; [exact Hlist |]. rewrite Hlist. split.
  - apply zrange_NoDup.
  - intros v. rewrite zrange_In. lia.
Qed.

Lemma next_yields_1_to_N_witness :
  Z.of_nat 5 <= INT_MAX /\ fst (repeatM 5 next init_world) = [1; 2; 3; 4; 5].
Proof.
  split.
  - rewrite INT_MAX_val. lia.
  - apply (next_yields_1_to_N 5). rewrite INT_MAX_val. lia.
Defined.

Lemma calls_reach_INT_MIN (n : nat) :
  Z.of_nat n = 2147483648 ->
  In INT_MIN (fst (repeatM n next init_world)) /\
  ~ Permutation (fst (repeatM n next init_world)) (zrange 1 n).
Proof.
  intros Hn.
  assert (Hin : In INT_MIN (fst (repeatM n next init_world))).
  { rewrite calls_from_init. apply in_map_iff. exists (Nat.pred n). split.
    - rewrite nth_call_value.
      replace (1 + Z.of_nat (Nat.pred n)) with 2147483648 by lia. reflexivity.
    - apply in_seq. lia. }
  split; [exact Hin |].
  intros HP. pose proof (Permutation_in _ HP Hin) as Hin'.
  destruct (zrange_In 1 n INT_MIN) as [Hr _]. specialize (Hr Hin').
  rewrite INT_MIN_val in Hr. lia.
Qed.

(** C1 as stated fails at N = 2^31: the 2^31-th call returns INT_MIN, so the
    returned values are not the integers from 1 to N. *)
Lemma next_not_1_to_N_at_2_31 :
  In INT_MIN (fst (repeatM (Z.to_nat 2147483648) next init_world)) /\
  ~ Permutation (fst (repeatM (Z.to_nat 2147483648) next init_world))
                (zrange 1 (Z.to_nat 2147483648)).
Proof.
  exact (calls_reach_INT_MIN (Z.to_nat 2147483648)
           (Z2Nat.id 2147483648 (Pos2Z.is_nonneg 2147483648))).
Qed.

Lemma nth_call_period (n : nat) : Z.of_nat n = int_modulus -> nth_call n = 1.
Proof.
  intros Hn. transitivity (nth_call 0); [| reflexivity].
  apply nth_call_congr. rewrite Hn. reflexivity.
Qed.

Lemma call_before_period_fresh (n : nat) :
  Z.of_nat n = 4294967295 ->
  nth_call n = 0 /\
  ~ In 0 (fst (repeatM n next init_world)) /\
  List.NoDup (fst (repeatM (S n) next init_world)).
Proof.
  intros Hn. split; [| split].
  - rewrite nth_call_value, Hn. reflexivity.
  - rewrite calls_from_init, in_map_iff. intros (k & Hk & Hin).
    apply in_seq in Hin. rewrite nth_call_value in Hk.
    assert (E : wrap_int (1 + Z.of_nat k) = wrap_int 0) by (rewrite Hk; reflexivity).
    apply wrap_int_congr in E. apply mod_zero_small in E.
    + lia.
    + rewrite int_modulus_val. lia.
  - apply calls_NoDup_iff. rewrite int_modulus_val. lia.
Qed.

(** C10, as amended: the counter is a 32-bit signed integer and
    [fetch_add(1)] stores the sum reduced modulo 2^32 into the range of
    [int]; two calls return the same value exactly when their positions
    differ by a multiple of 2^32, so the values returned by N calls are
    pairwise distinct exactly when N <= 2^32, and the first repetition is
    the call made after 2^32 earlier calls (the (2^32+1)-th), which returns
    1 again. *)
Theorem seq_counter_wraps_mod_2_32 :
  (forall w, INT_MIN <= seq_counter (snd (next w)) <= INT_MAX /\
             (seq_counter (snd (next w)) - (seq_counter w + 1)) mod int_modulus = 0) /\
  (forall i j, nth_call i = nth_call j <-> (Z.of_nat i - Z.of_nat j) mod int_modulus = 0) /\
  (forall n, List.NoDup (fst (repeatM n next init_world)) <-> Z.of_nat n <= int_modulus) /\
  nth_call (Z.to_nat 4294967296) = 1 /\ nth_call 0 = 1 /\ int_modulus = 2 ^ 32.
Proof.
  split; [| split; [| split; [| split; [| split]]]].
  - intros w. rewrite next_run. cbn [snd seq_counter]. split; [apply wrap_int_range |].
    apply wrap_int_congr. apply wrap_int_small, wrap_int_range.
  - exact nth_call_congr.
  - exact calls_NoDup_iff.
  - exact (nth_call_period (Z.to_nat 4294967296)
             (Z2Nat.id 4294967296 (Pos2Z.is_nonneg 4294967296))).
  - reflexivity.
  - reflexivity.
Qed.

(** C10 as stated fails at the 2^32-th call: that call, made after
    2^32 - 1 earlier ones, returns 0, which no earlier call returned, and
    the values of the first 2^32 calls are still pairwise distinct. *)
Lemma call_2_32_returns_fresh_value :
  nth_call (Z.to_nat 4294967295) = 0 /\
  ~ In 0 (fst (repeatM (Z.to_nat 4294967295) next init_world)) /\
  List.NoDup (fst (repeatM (S (Z.to_nat 4294967295)) next init_world)).
Proof.
  exact (call_before_period_fresh (Z.to_nat 4294967295)
           (Z2Nat.id 4294967295 (Pos2Z.is_nonneg 4294967295))).
Qed.

End GeneratorBounds.

(** ** Texts *)

Section Texts.

Lemma newlines_app (a b : string) : newlines (a ++ b) = (newlines a + newlines b)%nat.
Proof. induction a as [| c a IH]; cbn [append newlines]; [reflexivity | rewrite IH; lia]. Qed.

Lemma uint_text_no_newline (d : Decimal.uint) : newlines (NilEmpty.string_of_uint d) = 0%nat.
Proof. induction d; cbn [NilEmpty.string_of_uint newlines]; [reflexivity | exact IHd ..]. Qed.

Lemma to_string_no_newline (v : Z) : newlines (Text.to_string v) = 0%nat.
Proof.
  unfold Text.to_string. destruct (Z.to_int v) as [d | d]; cbn [NilZero.string_of_int].
  - destruct d; try apply uint_text_no_newline. reflexivity.
  - cbn [newlines]. change (Ascii.eqb "-" Text.nl) with false. cbn [Nat.add].
    destruct d; try apply uint_text_no_newline. reflexivity.
Qed.

Lemma newlines_setw (w : nat) (s : string) :
  newlines (Text.setw "0" w s) = newlines s.
Proof.
  unfold Text.setw. rewrite newlines_app.
  induction (w - String.length s)%nat as [| n IH]; cbn [repeat string_of_list_ascii newlines].
  - reflexivity.
  - change (Ascii.eqb "0" Text.nl) with false. cbn [Nat.add]. exact IH.
Qed.

Lemma format_timestamp_no_newline (e : env) (now : Z) :
  newlines (format_timestamp e now) = 0%nat.
Proof.
  unfold format_timestamp, put_time_HMS. cbv zeta.
  rewrite !newlines_app, !newlines_setw, !to_string_no_newline. reflexivity.
Qed.

Lemma split_lines_nonempty (s : string) : split_lines s <> [].
Proof.
  destruct s as [| c s]; cbn [split_lines]; [discriminate |].
  destruct (Ascii.eqb c "010"); [discriminate |].
  destruct (split_lines s); discriminate.
Qed.

Lemma split_lines_line (a rest : string) :
  newlines a = 0%nat ->
  split_lines (a ++ String "010" rest) = a :: split_lines rest.
Proof.
  induction a as [| c a IH]; cbn [append newlines split_lines]; intros Ha.
  - reflexivity.
  - change Text.nl with "010"%char in Ha.
    destruct (Ascii.eqb c "010"); [discriminate Ha |].
    cbn [Nat.add] in Ha. now rewrite (IH Ha).
Qed.

Lemma split_lines_app_lf (a b : string) :
  split_lines (a ++ String "010" b) = split_lines a ++ split_lines b.
Proof.
  induction a as [| c a IH]; cbn [append split_lines]; [reflexivity |].
  destruct (Ascii.eqb c "010"); [now rewrite IH |].
  rewrite IH. destruct (split_lines a) as [| l ls] eqn:Ha; [| reflexivity].
  now apply split_lines_nonempty in Ha.
Qed.

Lemma split_lines_single (a : string) : newlines a = 0%nat -> split_lines a = [a].
Proof.
  induction a as [| c a IH]; cbn [newlines split_lines]; intros Ha.
  - reflexivity.
  - change Text.nl with "010"%char in Ha.
    destruct (Ascii.eqb c "010"); [discriminate Ha |].
    cbn [Nat.add] in Ha. now rewrite (IH Ha).
Qed.

Lemma number_of_uint (d : Decimal.uint) : forall acc,
  number_of (list_ascii_of_string (NilEmpty.string_of_uint d)) acc = Some (uint_value d acc).
Proof.
  induction d; intros acc;
    cbn [NilEmpty.string_of_uint list_ascii_of_string number_of uint_value];
    try reflexivity;
    match goal with
    | |- context [digit_of ?c] =>
        let v := eval vm_compute in (digit_of c) in change (digit_of c) with v
    end; cbv iota beta; rewrite ?Z.add_0_r; apply IHd.
Qed.

Lemma uint_value_pos (d : Decimal.uint) : forall p : positive,
  uint_value d (Z.pos p) = Z.pos (Pos.of_uint_acc d p).
Proof.
  induction d; intros p; cbn [uint_value Pos.of_uint_acc]; try reflexivity;
    rewrite <- IHd; f_equal; lia.
Qed.

Lemma uint_value_zero (d : Decimal.uint) : uint_value d 0 = Z.of_N (Pos.of_uint d).
Proof.
  induction d; cbn [uint_value Pos.of_uint]; try reflexivity;
    [exact IHd | ..]; cbn [Z.mul Z.add Z.of_N]; apply uint_value_pos.
Qed.

(** The decimal text of a number that is not negative reads back as that
    number. *)
Lemma to_string_reads_back (v : Z) : 0 <= v -> read_decimal (Text.to_string v) = Some v.
Proof.
  intros Hv. unfold Text.to_string. destruct v as [| p | p]; [reflexivity | | lia].
  cbn [Z.to_int NilZero.string_of_int].
  assert (Hnn : Pos.to_uint p <> Decimal.Nil) by apply DecimalPos.Unsigned.to_uint_nonnil.
  assert (Hs : NilZero.string_of_uint (Pos.to_uint p) = NilEmpty.string_of_uint (Pos.to_uint p)).
  { destruct (Pos.to_uint p); [contradiction | reflexivity ..]. }
  rewrite Hs. unfold read_decimal.
  destruct (NilEmpty.string_of_uint (Pos.to_uint p)) eqn:Hstr.
  - destruct (Pos.to_uint p); try discriminate Hstr. contradiction.
  - rewrite <- Hstr, number_of_uint, uint_value_zero, DecimalPos.Unsigned.of_to. reflexivity.
Qed.

Lemma compose_block_spec (color ts : string) (seq : Z) (label func_name tid : string) :
  compose_block color ts seq label func_name tid =
  spec_block color ts (Text.to_string seq) label func_name tid.
Proof. reflexivity. Qed.

Lemma reset_code_spec : reset_code = spec_reset.
Proof. reflexivity. Qed.

End Texts.

(** ** The log emitter, run by a single thread *)

Section Emitter.

Variable e : env.

Lemma string_app_assoc (a b c : string) : ((a ++ b) ++ c)%string = (a ++ b ++ c)%string.
Proof. induction a as [| x a IH]; cbn; [reflexivity | now rewrite IH]. Qed.

Lemma flatten_app (a b : list string) :
  Text.flatten (a ++ b) = (Text.flatten a ++ Text.flatten b)%string.
Proof.
  induction a as [| x a IH]; cbn [Text.flatten fold_right app].
  - reflexivity.
  - change (fold_right append EmptyString (a ++ b)) with (Text.flatten (a ++ b)).
    rewrite IH. change (fold_right append EmptyString a) with (Text.flatten a).
    now rewrite string_app_assoc.
Qed.

Lemma append_empty_r (s : string) : (s ++ "")%string = s.
Proof. induction s as [| c s IH]; cbn; [reflexivity | now rewrite IH]. Qed.

Lemma current_timestamp_run (w : world) :
  current_timestamp e w =
  (format_timestamp e (clock e (clock_reads w)),
   {| seq_counter := seq_counter w; cout := cout w; clock_reads := S (clock_reads w) |}).
Proof. reflexivity. Qed.

Lemma print_thread_output_run (self : nat) (color label func_name : string) (w : world) :
  print_thread_output e self color label func_name w =
  (tt, {| seq_counter := wrap_int (seq_counter w + 1);
          cout := (cout w ++
                   [compose_block color (format_timestamp e (clock e (clock_reads w)))
                      (seq_counter w) label func_name (thread_id_text e self)])
                  ++ [reset_code];
          clock_reads := S (clock_reads w) |}).
Proof. reflexivity. Qed.

(** Every call performs two insertions on [std::cout]: the content of the
    [stringstream], then the reset code. *)
Lemma print_thread_output_insertions (self : nat) (color label func_name : string) (w : world) :
  cout (snd (print_thread_output e self color label func_name w)) =
  cout w ++
  [compose_block color (format_timestamp e (clock e (clock_reads w)))
     (seq_counter w) label func_name (thread_id_text e self);
   reset_code].
Proof. rewrite print_thread_output_run. cbn [snd cout]. now rewrite <- app_assoc. Qed.

(** C4, as amended: for every call of [print_thread_output] whose color,
    label and function name contain no line feed, the thread identifier
    text containing none either, the text added to the console splits at
    its line feeds into exactly: the color code followed by
    "[TIMESTAMP] #SEQ [LABEL]", then "  Function : FUNC_NAME", then
    "  Thread ID: THREAD_ID", then a separator of 33 dashes, and after the
    fourth line feed the reset sequence ESC [ 0 m.  SEQ is the decimal text
    of the sequence number. *)
Theorem print_thread_output_block_structure
    (self : nat) (color label func_name : string) (w : world) :
  newlines color = 0%nat -> newlines label = 0%nat -> newlines func_name = 0%nat ->
  newlines (thread_id_text e self) = 0%nat ->
  let ts := format_timestamp e (clock e (clock_reads w)) in
  let seq := Text.to_string (seq_counter w) in
  let tid := thread_id_text e self in
  exists text,
    Text.flatten (cout (snd (print_thread_output e self color label func_name w))) =
      (Text.flatten (cout w) ++ text)%string
    /\ split_lines text =
       [(color ++ "[" ++ ts ++ "] #" ++ seq ++ " [" ++ label ++ "]")%string;
        ("  Function : " ++ func_name)%string;
        ("  Thread ID: " ++ tid)%string;
        "---------------------------------"%string;
        String "027"%char "[0m"]
    /\ String.length "---------------------------------" = 33%nat
    /\ (0 <= seq_counter w -> read_decimal seq = Some (seq_counter w)).
Proof.
  intros Hc Hl Hf Ht. cbv zeta.
  exists (compose_block color (format_timestamp e (clock e (clock_reads w)))
            (seq_counter w) label func_name (thread_id_text e self) ++ reset_code)%string.
  split; [| split; [| split; [reflexivity | apply to_string_reads_back]]].
  - rewrite print_thread_output_insertions, flatten_app.
    f_equal; cbn [Text.flatten fold_right]; now rewrite append_empty_r.
  - rewrite compose_block_spec. unfold spec_block, LF.
    set (ts := format_timestamp e (clock e (clock_reads w))).
    assert (Hts : newlines ts = 0%nat) by apply format_timestamp_no_newline.
    repeat rewrite string_app_assoc.
    replace (color ++ "[" ++ ts ++ "] #" ++ Text.to_string (seq_counter w) ++ " [" ++ label
             ++ "]" ++ String "010" "" ++ "  Function : " ++ func_name ++ String "010" ""
             ++ "  Thread ID: " ++ thread_id_text e self ++ String "010" ""
             ++ "---------------------------------" ++ String "010" "" ++ reset_code)%string
      with ((color ++ "[" ++ ts ++ "] #" ++ Text.to_string (seq_counter w) ++ " [" ++ label
             ++ "]") ++ String "010"
             (("  Function : " ++ func_name) ++ String "010"
                (("  Thread ID: " ++ thread_id_text e self) ++ String "010"
                   ("---------------------------------" ++ String "010" reset_code))))%string
      by (repeat rewrite string_app_assoc; reflexivity).
    rewrite split_lines_line
      by (rewrite !newlines_app, to_string_no_newline, Hc, Hts, Hl; reflexivity).
    rewrite split_lines_line by (rewrite newlines_app; exact Hf).
    rewrite split_lines_line by (rewrite newlines_app; exact Ht).
    rewrite split_lines_line by reflexivity.
    reflexivity.
Qed.

(** C3, what the code does: the color prefix and the block go to
    [std::cout] in one insertion, the reset code in a second, separate
    insertion.  On a fresh program, the call made by [main] leaves exactly
    these two entries. *)
Theorem print_thread_output_splits_reset :
  cout (snd (print_thread_output sample_env 0 yellow "main" "main" init_world)) =
    [compose_block yellow "13:34:56.789" 1 "main" "main" "140000"; reset_code]
  /\ length (cout (snd (print_thread_output sample_env 0 yellow "main" "main" init_world))) = 2%nat.
Proof. split; reflexivity. Qed.

Lemma to_string_inj (a b : Z) : Text.to_string a = Text.to_string b -> a = b.
Proof.
  intros H. unfold Text.to_string in H.
  apply (f_equal NilZero.int_of_string) in H.
  assert (Hnn : forall z, Z.to_int z <> Decimal.Pos Decimal.Nil /\
                          Z.to_int z <> Decimal.Neg Decimal.Nil).
  { intros [| p | p]; split; try discriminate; cbn; intros [= Hp];
      now apply DecimalPos.Unsigned.to_uint_nonnil in Hp. }
  rewrite !NilZero.isi in H by apply Hnn.
  injection H as H. now apply DecimalZ.to_int_inj.
Qed.

Lemma append_cancel_l (p a b : string) : (p ++ a)%string = (p ++ b)%string -> a = b.
Proof. induction p as [| c p IH]; cbn; [auto | intros [= H]; auto]. Qed.

(** C7: run by thread [self], [free_function] and [Foo::member_function]
    each make one call of the emitter, hence one [fetch_add], one clock
    reading, one block and its reset code.  The block is green for the free
    function and blue for the member function (yellow is the color of
    [main]), its label ends with the decimal text of [id], so that
    different identifiers give different labels, and its function-name
    field is the task's own name. *)
Theorem worker_tasks_emit_once (self : nat) (id : Z) (w : world) :
  let ts := format_timestamp e (clock e (clock_reads w)) in
  let tid := thread_id_text e self in
  let free_label := ("free_function #" ++ Text.to_string id)%string in
  let member_label := ("Foo::member_function #" ++ Text.to_string id)%string in
  free_function e self id w = print_thread_output e self green free_label "free_function" w
  /\ Foo.member_function e self id w =
       print_thread_output e self blue member_label "member_function" w
  /\ free_function e self id w =
    (tt, {| seq_counter := wrap_int (seq_counter w + 1);
            cout := cout w ++
              [compose_block green ts (seq_counter w) free_label "free_function" tid;
               reset_code];
            clock_reads := S (clock_reads w) |})
  /\ Foo.member_function e self id w =
    (tt, {| seq_counter := wrap_int (seq_counter w + 1);
            cout := cout w ++
              [compose_block blue ts (seq_counter w) member_label "member_function" tid;
               reset_code];
            clock_reads := S (clock_reads w) |})
  /\ green <> blue /\ green <> yellow /\ blue <> yellow
  /\ (forall id', task_label (FreeTask id) = task_label (FreeTask id') -> id = id')
  /\ (forall obj obj' id',
        task_label (MemberTask obj id) = task_label (MemberTask obj' id') -> id = id').
Proof.
  cbv zeta. split; [reflexivity |]. split; [reflexivity |].
  split; [| split; [| repeat split]].
  - unfold free_function. rewrite print_thread_output_run. now rewrite <- app_assoc.
  - unfold Foo.member_function. rewrite print_thread_output_run. now rewrite <- app_assoc.
  - discriminate.
  - discriminate.
  - discriminate.
  - intros id' H. cbn [task_label] in H. now apply append_cancel_l, to_string_inj in H.
  - intros obj obj' id' H. cbn [task_label] in H.
    now apply append_cancel_l, to_string_inj in H.
Qed.

(** C9: any number of successive calls of [current_timestamp] leave
    [seq_counter] and [std::cout] as they were; every call returns a text,
    which is computed from the clock reading of that call alone. *)
Theorem current_timestamp_frame (n : nat) (w : world) :
  seq_counter (snd (repeatM n (current_timestamp e) w)) = seq_counter w
  /\ cout (snd (repeatM n (current_timestamp e) w)) = cout w
  /\ fst (repeatM n (current_timestamp e) w) =
     map (fun k => format_timestamp e (clock e (clock_reads w + k))) (seq 0 n).
Proof.
  revert w. induction n as [| n IH]; intros w.
  - repeat split; reflexivity.
  - rewrite repeatM_S, current_timestamp_run.
    set (w1 := {| seq_counter := seq_counter w; cout := cout w;
                  clock_reads := S (clock_reads w) |}).
    destruct (IH w1) as (Hc & Ho & Hr).
    destruct (repeatM n (current_timestamp e) w1) as [rest w2].
    cbn [fst snd] in *. subst w1. cbn [seq_counter cout clock_reads] in *.
    split; [exact Hc | split; [exact Ho |]].
    cbn [seq map]. rewrite Nat.add_0_r. f_equal.
    rewrite Hr, <- seq_shift, map_map. apply map_ext. intros k.
    do 2 f_equal. lia.
Qed.

End Emitter.

(** ** The timestamp formatter *)

Section Timestamp.

Variable e : env.

Lemma bounded_check (b : Z -> bool) (n : nat) :
  forallb (fun k => b (Z.of_nat k)) (seq 0 n) = true ->
  forall v, 0 <= v < Z.of_nat n -> b v = true.
Proof.
  intros Hall v Hv. rewrite forallb_forall in Hall.
  specialize (Hall (Z.to_nat v)). rewrite Z2Nat.id in Hall by lia.
  apply Hall, in_seq. lia.
Qed.

Lemma digit_of_digit_char (d : Z) : 0 <= d <= 9 -> digit_of (digit_char d) = Some d.
Proof.
  intros Hd.
  assert (H : (match digit_of (digit_char d) with
               | Some d' => d' =? d
               | None => false
               end) = true).
  { apply (bounded_check
             (fun d => match digit_of (digit_char d) with
                       | Some d' => d' =? d
                       | None => false
                       end) 10); [reflexivity | lia]. }
  destruct (digit_of (digit_char d)) as [d' |]; [| discriminate].
  apply Z.eqb_eq in H. now subst.
Qed.

Lemma setw2_digits (v : Z) :
  0 <= v < 100 ->
  Text.setw "0" 2 (Text.to_string v) =
  String (digit_char (v / 10)) (String (digit_char (v mod 10)) EmptyString).
Proof.
  intros Hv. apply String.eqb_eq.
  apply (bounded_check
           (fun v => String.eqb (Text.setw "0" 2 (Text.to_string v))
                       (String (digit_char (v / 10))
                          (String (digit_char (v mod 10)) EmptyString))) 100);
    [vm_compute; reflexivity | lia].
Qed.

Lemma setw3_digits (v : Z) :
  0 <= v < 1000 ->
  Text.setw "0" 3 (Text.to_string v) =
  String (digit_char (v / 100))
    (String (digit_char ((v / 10) mod 10)) (String (digit_char (v mod 10)) EmptyString)).
Proof.
  intros Hv. apply String.eqb_eq.
  apply (bounded_check
           (fun v => String.eqb (Text.setw "0" 3 (Text.to_string v))
                       (String (digit_char (v / 100))
                          (String (digit_char ((v / 10) mod 10))
                             (String (digit_char (v mod 10)) EmptyString)))) 1000);
    [vm_compute; reflexivity | lia].
Qed.

Lemma localtime_ranges (t_c : Z) :
  0 <= tm_hour (localtime e t_c) <= 23 /\
  0 <= tm_min (localtime e t_c) <= 59 /\
  0 <= tm_sec (localtime e t_c) <= 60.
Proof. exact (localtime_in_range e t_c). Qed.

(** After the epoch the millisecond field is the sub-second part of the
    reading, cut down to whole milliseconds. *)
Lemma milliseconds_truncated (now : Z) :
  0 <= now ->
  Z.rem (duration_cast_milliseconds now) 1000 = (now mod ticks_per_second) / ticks_per_milli
  /\ now mod ticks_per_second = now - to_time_t now * ticks_per_second.
Proof.
  intros Hnow. unfold duration_cast_milliseconds, to_time_t, ticks_per_second, ticks_per_milli.
  split; Z.to_euclidean_division_equations; lia.
Qed.

Lemma parse_digits (h1 h0 m1 m0 s1 s0 f2 f1 f0 : Z) :
  0 <= h1 <= 9 -> 0 <= h0 <= 9 -> 0 <= m1 <= 9 -> 0 <= m0 <= 9 ->
  0 <= s1 <= 9 -> 0 <= s0 <= 9 -> 0 <= f2 <= 9 -> 0 <= f1 <= 9 -> 0 <= f0 <= 9 ->
  parse_timestamp
    ((String (digit_char h1) (String (digit_char h0) EmptyString) ++ ":" ++
      String (digit_char m1) (String (digit_char m0) EmptyString) ++ ":" ++
      String (digit_char s1) (String (digit_char s0) EmptyString)) ++ "." ++
     String (digit_char f2) (String (digit_char f1) (String (digit_char f0) EmptyString)))
  = Some (10 * h1 + h0, 10 * m1 + m0, 10 * s1 + s0, 10 * (10 * f2 + f1) + f0).
Proof.
  intros. unfold parse_timestamp.
  cbn [append list_ascii_of_string]. 
  change (Ascii.eqb ":" ":") with true. change (Ascii.eqb "." ".") with true.
  cbn [andb number_of].
  rewrite !digit_of_digit_char by assumption.
  repeat f_equal; lia.
Qed.

(** C5, as amended: for every clock reading at or after the epoch,
    [current_timestamp] returns twelve characters of the form
    dd:dd:dd.ddd, whose numbers are the hour (0 to 23), the minute (0 to
    59) and the second (0 to 60, where 60 occurs only if the platform's
    local time reports a leap second) that [localtime_r] gives for the
    reading, and the millisecond (0 to 999), the latter being the
    sub-second part of the reading cut down, not rounded, to whole
    milliseconds. *)
Theorem current_timestamp_format (w : world) :
  0 <= clock e (clock_reads w) ->
  let now := clock e (clock_reads w) in
  let t := localtime e (to_time_t now) in
  let ms := (now - to_time_t now * ticks_per_second) / ticks_per_milli in
  parse_timestamp (fst (current_timestamp e w)) = Some (tm_hour t, tm_min t, tm_sec t, ms)
  /\ String.length (fst (current_timestamp e w)) = 12%nat
  /\ 0 <= tm_hour t <= 23 /\ 0 <= tm_min t <= 59 /\ 0 <= tm_sec t <= 60
  /\ 0 <= ms <= 999
  /\ ms * ticks_per_milli <= now - to_time_t now * ticks_per_second
       < (ms + 1) * ticks_per_milli.
Proof.
  intros Hnow. cbv zeta.
  cbn [current_timestamp bind system_clock_now ret fst].
  set (now := clock e (clock_reads w)) in *.
  destruct (milliseconds_truncated now Hnow) as [Hms Hsub].
  destruct (localtime_ranges (to_time_t now)) as (Hh & Hm & Hs).
  rewrite <- Hsub.
  assert (Hmsr : 0 <= now mod ticks_per_second / ticks_per_milli <= 999).
  { unfold ticks_per_second, ticks_per_milli. Z.div_mod_to_equations. lia. }
  unfold format_timestamp, put_time_HMS. cbv zeta. rewrite Hms.
  set (t := localtime e (to_time_t now)) in *.
  set (ms := now mod ticks_per_second / ticks_per_milli) in *.
  rewrite !setw2_digits, setw3_digits by lia.
  split; [| split; [reflexivity | repeat split; try lia]].
  - rewrite parse_digits by (Z.div_mod_to_equations; lia).
    repeat f_equal; Z.div_mod_to_equations; lia.
  - subst ms. unfold ticks_per_second, ticks_per_milli. Z.div_mod_to_equations. lia.
  - subst ms. unfold ticks_per_second, ticks_per_milli. Z.div_mod_to_equations. lia.
Qed.

End Timestamp.

Lemma current_timestamp_format_witness :
  0 <= clock sample_env (clock_reads init_world) /\
  parse_timestamp (fst (current_timestamp sample_env init_world)) = Some (13, 34, 56, 789).
Proof.
  assert (H : 0 <= clock sample_env (clock_reads init_world)) by (vm_compute; discriminate).
  split; [exact H |].
  exact (proj1 (current_timestamp_format sample_env init_world H)).
Defined.

(** C5 as stated fails during a leap second: in a zone that counts leap
    seconds the reading 1483228826 s after the epoch is 23:59:60 local
    time, and the text reads back with second 60, above 59. *)
Lemma timestamp_at_leap_second :
  0 <= clock leap_second_env (clock_reads init_world)
  /\ fst (current_timestamp leap_second_env init_world) = "23:59:60.000"%string
  /\ parse_timestamp (fst (current_timestamp leap_second_env init_world))
     = Some (23, 59, 60, 0)
  /\ ~ 60 <= 59.
Proof. split; [vm_compute; discriminate |]. split; [reflexivity |]. split; [reflexivity | lia]. Qed.

(** Before the epoch the millisecond count is negative and is printed with
    its sign: one millisecond before the epoch the text is not of the form
    dd:dd:dd.ddd, against the format the source states for the function. *)
Lemma timestamp_before_epoch_malformed :
  fst (current_timestamp pre_epoch_env init_world) = "00:00:00.0-1"%string
  /\ parse_timestamp (fst (current_timestamp pre_epoch_env init_world)) = None.
Proof. split; reflexivity. Qed.

(** ** The whole program under an arbitrary schedule *)

Section Schedules.

Variable e : env.

Lemma insert_decompose (l : list worker) (j : nat) (w w' : worker) :
  l !! j = Some w ->
  exists l1 l2, l = l1 ++ w :: l2 /\ <[j:=w']> l = l1 ++ w' :: l2.
Proof.
  intros Hj. exists (take j l), (drop (S j) l). split.
  - symmetry. now apply take_drop_middle.
  - apply insert_take_drop. now apply lookup_lt_Some in Hj.
Qed.

Lemma flat_map_insert {B} (f : worker -> list B) (l : list worker) (j : nat)
    (w w' : worker) (x : list B) :
  l !! j = Some w -> f w' = f w ++ x ->
  Permutation (flat_map f (<[j:=w']> l)) (flat_map f l ++ x).
Proof.
  intros Hj Hf. destruct (insert_decompose l j w w' Hj) as (l1 & l2 & Hl & Hl').
  rewrite Hl', Hl at 1. rewrite !flat_map_app. cbn [flat_map]. rewrite Hf.
  rewrite <- !app_assoc. apply Permutation_app_head, Permutation_app_head.
  apply Permutation_app_comm.
Qed.

Lemma map_task_insert (l : list worker) (j : nat) (w w' : worker) :
  l !! j = Some w -> w_task w' = w_task w ->
  map w_task (<[j:=w']> l) = map w_task l.
Proof.
  intros Hj Ht. destruct (insert_decompose l j w w' Hj) as (l1 & l2 & Hl & Hl').
  rewrite Hl', Hl at 1. rewrite !map_app. cbn [map]. now rewrite Ht.
Qed.

Lemma boot_invariant : invariant e (boot e).
Proof.
  split; cbn [boot threads main_pc globals flat_map length].
  - reflexivity.
  - apply perm_nil.
  - exists []. split; [now rewrite app_nil_r | apply perm_nil].
  - reflexivity.
  - lia.
  - intros j w Hj. lia.
Qed.

Lemma firstn_all_tasks_S (k : nat) :
  (k < worker_count)%nat ->
  firstn (S k) all_tasks =
  firstn k all_tasks ++
  [if (k <? foo_count)%nat then MemberTask k (Z.of_nat k + 1)
   else FreeTask (Z.of_nat (k - foo_count) + 1)].
Proof.
  intros Hk. do 7 (destruct k as [| k]; [reflexivity |]).
  unfold worker_count, foo_count, free_count in Hk. lia.
Qed.

Lemma main_step_invariant (c c' : config) :
  invariant e c -> main_step c = Some c' -> invariant e c'.
Proof.
  intros [Hcnt Hseq Hout Htasks Hmain Hjoin] Hstep.
  unfold main_step in Hstep.
  assert (Hlen : length (threads c) = Nat.min (main_pc c) worker_count).
  { rewrite <- (length_map w_task), Htasks, length_firstn. reflexivity. }
  assert (Hspawn : forall t,
     (main_pc c < worker_count)%nat ->
     t = (if (main_pc c <? foo_count)%nat then MemberTask (main_pc c) (Z.of_nat (main_pc c) + 1)
          else FreeTask (Z.of_nat (main_pc c - foo_count) + 1)) ->
     invariant e (spawn t c)).
  { intros t Hk Ht. split; cbn [spawn threads main_pc globals].
    - rewrite flat_map_app. cbn. now rewrite app_nil_r.
    - rewrite flat_map_app. cbn. now rewrite app_nil_r.
    - destruct Hout as (rest & Hrest & Hperm). exists rest. split; [exact Hrest |].
      rewrite flat_map_app. cbn. now rewrite app_nil_r.
    - rewrite map_app, Htasks, firstn_all_tasks_S by exact Hk. cbn [map new_worker w_task].
      now rewrite Ht.
    - rewrite length_app. cbn [length]. lia.
    - intros j w Hj. exfalso. lia. }
  destruct (main_pc c <? foo_count)%nat eqn:Hfoo.
  - injection Hstep as <-. apply Hspawn.
    + apply Nat.ltb_lt in Hfoo. unfold worker_count, foo_count in *. lia.
    + reflexivity.
  - destruct (main_pc c <? foo_count + free_count)%nat eqn:Hfree.
    + injection Hstep as <-. apply Nat.ltb_lt in Hfree. apply Hspawn.
      * exact Hfree.
      * reflexivity.
    + apply Nat.ltb_ge in Hfree. fold worker_count in Hfree, Hstep.
      destruct (threads c !! (main_pc c - worker_count)%nat) as [w |] eqn:Hw; [| discriminate].
      destruct (w_pc w) eqn:Hpc; try discriminate. injection Hstep as <-.
      pose proof (lookup_lt_Some _ _ _ Hw) as Hlt.
      split; cbn [threads main_pc globals]; try assumption.
      * rewrite Htasks. rewrite !firstn_all2; [reflexivity | |];
          change (length all_tasks) with worker_count; lia.
      * lia.
      * intros j w0 Hj Hw0.
        destruct (Nat.eq_dec j (main_pc c - worker_count)%nat) as [-> | Hne].
        -- rewrite Hw in Hw0. injection Hw0 as <-. exact Hpc.
        -- apply (Hjoin j w0); [lia | exact Hw0].
Qed.

Lemma worker_step_invariant (c : config) (j : nat) (w w' : worker) (g' : world) :
  invariant e c -> threads c !! j = Some w ->
  worker_step e w (globals c) = Some (w', g') ->
  invariant e {| globals := g'; main_pc := main_pc c; threads := <[j:=w']> (threads c) |}.
Proof.
  intros [Hcnt Hseq Hout Htasks Hmain Hjoin] Hw Hstep.
  assert (Htask' : w_task w' = w_task w).
  { unfold worker_step in Hstep. destruct (w_pc w); cbn in Hstep;
      try discriminate; now injection Hstep as <- _. }
  assert (Hbound : (length (flat_map seq_taken (threads c)) <= worker_count)%nat).
  { transitivity (length (threads c)).
    - clear. induction (threads c) as [| x l IH]; cbn [flat_map length]; [lia |].
      rewrite length_app. unfold seq_taken at 1. destruct (w_pc x); cbn [length]; lia.
    - rewrite <- (length_map w_task), Htasks, length_firstn.
      change (length all_tasks) with worker_count. lia. }
  assert (Hnotfin : w_pc w <> Finished).
  { intros Hf. unfold worker_step in Hstep. now rewrite Hf in Hstep. }
  assert (exists xs xo,
            seq_taken w' = seq_taken w ++ xs /\
            inserted_by e w' = inserted_by e w ++ xo /\
            cout g' = cout (globals c) ++ xo /\
            seq_counter g' = seq_counter (globals c) + Z.of_nat (length xs) /\
            (xs = [] \/ xs = [seq_counter (globals c)])) as (xs & xo & Hxs & Hxo & Hc' & Hn' & Hxs').
  { unfold worker_step in Hstep. unfold seq_taken, inserted_by, worker_block.
    destruct (w_pc w) eqn:Hpc; cbn in Hstep; try discriminate;
      injection Hstep as <- <-; cbn [w_pc w_seq w_ts w_task w_self cout seq_counter].
    - exists [seq_counter (globals c)], [].
      split; [reflexivity |]. split; [reflexivity |].
      split; [now rewrite app_nil_r |]. split; [| now right].
      cbn [length]. change (Z.of_nat 1) with 1.
      apply wrap_int_small. rewrite Hcnt, INT_MIN_val, INT_MAX_val.
      unfold worker_count, foo_count, free_count in Hbound. lia.
    - exists [], [].
      split; [reflexivity |]. split; [reflexivity |].
      split; [now rewrite app_nil_r |]. split; [cbn [length]; lia | now left].
    - exists [], [worker_block e w].
      split; [reflexivity |]. split; [reflexivity |].
      split; [reflexivity |]. split; [cbn [length]; lia | now left].
    - exists [], [reset_code].
      split; [reflexivity |]. split; [reflexivity |].
      split; [reflexivity |]. split; [cbn [length]; lia | now left]. }
  pose proof (flat_map_insert seq_taken _ j w w' xs Hw Hxs) as Pseq.
  pose proof (flat_map_insert (inserted_by e) _ j w w' xo Hw Hxo) as Pout.
  split; cbn [threads main_pc globals].
  - rewrite (Permutation_length Pseq), length_app, Hn', Hcnt. lia.
  - rewrite (Permutation_length Pseq), length_app.
    etransitivity; [exact Pseq |].
    destruct Hxs' as [-> | ->].
    + cbn [length]. rewrite app_nil_r, Nat.add_0_r. exact Hseq.
    + cbn [length]. rewrite Nat.add_1_r, zrange_S, Hcnt.
      now apply Permutation_app_tail.
  - destruct Hout as (rest & Hrest & Hperm). exists (rest ++ xo). split.
    + now rewrite Hc', Hrest, app_assoc.
    + etransitivity; [| symmetry; exact Pout]. now apply Permutation_app_tail.
  - rewrite (map_task_insert _ j w w' Hw Htask'). exact Htasks.
  - rewrite length_insert. exact Hmain.
  - intros i w0 Hi Hw0. destruct (Nat.eq_dec i j) as [-> | Hne].
    + exfalso. apply Hnotfin. now apply (Hjoin j w).
    + rewrite list_lookup_insert_ne in Hw0 by congruence. now apply (Hjoin i w0).
Qed.

Lemma step_invariant (c c' : config) (i : nat) :
  invariant e c -> step e c i = Some c' -> invariant e c'.
Proof.
  intros Hinv Hstep. destruct i as [| j]; cbn [step] in Hstep.
  - now apply (main_step_invariant c).
  - destruct (threads c !! j) as [w |] eqn:Hw; [| discriminate].
    destruct (worker_step e w (globals c)) as [[w' g'] |] eqn:Hws; [| discriminate].
    injection Hstep as <-. now apply (worker_step_invariant c j w).
Qed.

Lemma exec_invariant (sched : list nat) : forall c c',
  invariant e c -> exec e sched c = Some c' -> invariant e c'.
Proof.
  induction sched as [| i sched IH]; intros c c' Hinv Hexec; cbn [exec] in Hexec.
  - now injection Hexec as <-.
  - destruct (step e c i) as [c1 |] eqn:Hstep; [| discriminate].
    apply (IH c1); [now apply (step_invariant c c1 i) | exact Hexec].
Qed.

End Schedules.

Section Completion.

Variable e : env.

(** A worker that runs alone does what its task does when called. *)
Lemma worker_run_task_body (t : task) (self : nat) (g : world) :
  snd (worker_run e 4 (new_worker t self) g) = snd (task_body e self t g) /\
  w_pc (fst (worker_run e 4 (new_worker t self) g)) = Finished.
Proof. destruct t; split; reflexivity. Qed.

Lemma threads_length (c : config) :
  invariant e c -> length (threads c) = Nat.min (main_pc c) worker_count.
Proof.
  intros Hinv. rewrite <- (length_map w_task), (inv_tasks e c Hinv), length_firstn.
  reflexivity.
Qed.

Lemma returned_main_pc (c : config) :
  invariant e c -> main_returned c = true ->
  main_pc c = (2 * worker_count)%nat /\ length (threads c) = worker_count.
Proof.
  intros Hinv Hret. pose proof (threads_length c Hinv) as Hlen.
  pose proof (inv_main e c Hinv) as Hmain.
  unfold main_returned in Hret. apply andb_prop in Hret. destruct Hret as [H1 H2].
  apply Nat.leb_le in H1, H2. unfold worker_count, foo_count, free_count in *.
  split; lia.
Qed.

Lemma returned_all_finished (c : config) :
  invariant e c -> main_returned c = true ->
  Forall (fun w => w_pc w = Finished) (threads c).
Proof.
  intros Hinv Hret. destruct (returned_main_pc c Hinv Hret) as [Hpc Hlen].
  apply Forall_lookup. intros j w Hw. apply (inv_joined e c Hinv j w); [| exact Hw].
  apply lookup_lt_Some in Hw. lia.
Qed.

Lemma finished_contributions (l : list worker) :
  Forall (fun w => w_pc w = Finished) l ->
  flat_map seq_taken l = map w_seq l /\
  flat_map (inserted_by e) l = flat_map (fun w => [worker_block e w; reset_code]) l.
Proof.
  induction 1 as [| w l Hw _ [IH1 IH2]]; [split; reflexivity |].
  cbn [flat_map map]. rewrite IH1, IH2. unfold seq_taken, inserted_by. rewrite Hw.
  split; reflexivity.
Qed.

Lemma no_deadlock (c : config) :
  invariant e c -> main_returned c = false -> exists i c', step e c i = Some c'.
Proof.
  intros Hinv Hret. pose proof (threads_length c Hinv) as Hlen.
  unfold main_returned in Hret. fold worker_count in Hret.
  destruct (Nat.ltb_spec (main_pc c) worker_count) as [Hlt | Hge].
  - exists 0%nat. cbn [step]. unfold main_step.
    destruct (main_pc c <? foo_count)%nat; [eauto |].
    fold worker_count. apply Nat.ltb_lt in Hlt. rewrite Hlt. eauto.
  - apply Nat.leb_le in Hge as Hge'. rewrite Hge' in Hret. cbn [andb] in Hret.
    apply Nat.leb_gt in Hret.
    destruct (lookup_lt_is_Some_2 (threads c) (main_pc c - worker_count)%nat Hret) as [w Hw].
    destruct (w_pc w) eqn:Hpc.
    1-4: exists (S (main_pc c - worker_count)); cbn [step]; rewrite Hw;
         unfold worker_step; rewrite Hpc; cbn; eauto.
    exists 0%nat. cbn [step]. unfold main_step.
    assert (Hf : (main_pc c <? foo_count)%nat = false).
    { apply Nat.ltb_ge. unfold worker_count in Hge. lia. }
    rewrite Hf. fold worker_count.
    assert (Hw' : (main_pc c <? worker_count)%nat = false) by now apply Nat.ltb_ge.
    rewrite Hw', Hw, Hpc. eauto.
Qed.

Lemma list_sum_cons (a : nat) (l : list nat) : list_sum (a :: l) = (a + list_sum l)%nat.
Proof. reflexivity. Qed.

Lemma list_sum_insert (l : list worker) (j : nat) (w w' : worker) :
  l !! j = Some w -> pc_index (w_pc w') = S (pc_index (w_pc w)) ->
  list_sum (map (fun w => pc_index (w_pc w)) (<[j:=w']> l)) =
  S (list_sum (map (fun w => pc_index (w_pc w)) l)).
Proof.
  intros Hj Hpc. destruct (insert_decompose l j w w' Hj) as (l1 & l2 & Hl & Hl').
  rewrite Hl', Hl at 1. rewrite !map_app, !list_sum_app. cbn [map]. rewrite !list_sum_cons. lia.
Qed.

Lemma step_progress (c c' : config) (i : nat) :
  step e c i = Some c' -> progress c' = S (progress c).
Proof.
  unfold progress. destruct i as [| j]; cbn [step].
  - unfold main_step, spawn.
    destruct (main_pc c <? foo_count)%nat;
      [| destruct (main_pc c <? foo_count + free_count)%nat].
    1-2: intros [= <-]; cbn [main_pc threads]; rewrite map_app, list_sum_app; cbn; lia.
    destruct (threads c !! _) as [w |]; [| discriminate].
    destruct (w_pc w); try discriminate. intros [= <-]. cbn [main_pc threads]. lia.
  - destruct (threads c !! j) as [w |] eqn:Hw; [| discriminate].
    destruct (worker_step e w (globals c)) as [[w' g'] |] eqn:Hws; [| discriminate].
    intros [= <-]. cbn [main_pc threads].
    rewrite (list_sum_insert _ j w w' Hw); [lia |].
    unfold worker_step in Hws. destruct (w_pc w) eqn:Hpc; cbn in Hws;
      try discriminate; injection Hws as <- _; reflexivity.
Qed.

Lemma progress_bound (c : config) :
  invariant e c -> (progress c <= 6 * worker_count)%nat.
Proof.
  intros Hinv. pose proof (threads_length c Hinv) as Hlen.
  pose proof (inv_main e c Hinv) as Hmain. unfold progress.
  assert (H : (list_sum (map (fun w => pc_index (w_pc w)) (threads c))
               <= 4 * length (threads c))%nat).
  { clear. induction (threads c) as [| w l IH]; cbn [map length]; [cbn; lia |].
    rewrite list_sum_cons.
    assert (pc_index (w_pc w) <= 4)%nat by (destruct (w_pc w); cbn; lia). lia. }
  lia.
Qed.

(** From every reachable state the program can run on until [main] has
    joined all threads, and it cannot run forever. *)
Lemma run_completes (n : nat) : forall c,
  invariant e c -> (6 * worker_count <= progress c + n)%nat ->
  exists sched c', exec e sched c = Some c' /\ main_returned c' = true.
Proof.
  induction n as [| n IH]; intros c Hinv Hn.
  - destruct (main_returned c) eqn:Hret; [exists [], c; split; [reflexivity | exact Hret] |].
    destruct (no_deadlock c Hinv Hret) as (i & c1 & Hstep).
    pose proof (step_progress c c1 i Hstep) as Hp.
    pose proof (progress_bound c1 (step_invariant e c c1 i Hinv Hstep)). lia.
  - destruct (main_returned c) eqn:Hret; [exists [], c; split; [reflexivity | exact Hret] |].
    destruct (no_deadlock c Hinv Hret) as (i & c1 & Hstep).
    pose proof (step_progress c c1 i Hstep) as Hp.
    destruct (IH c1 (step_invariant e c c1 i Hinv Hstep)) as (sched & c' & Hexec & Hdone); [lia |].
    exists (i :: sched), c'. split; [| exact Hdone]. cbn [exec]. now rewrite Hstep.
Qed.

Lemma every_run_can_finish (sched : list nat) (c : config) :
  exec e sched (boot e) = Some c ->
  exists sched' c', exec e sched' c = Some c' /\ main_returned c' = true.
Proof.
  intros Hexec. apply (run_completes (6 * worker_count)).
  - exact (exec_invariant e sched _ _ (boot_invariant e) Hexec).
  - lia.
Qed.

End Completion.

(** Sequence numbers follow the order of the [fetch_add]s, not the order in
    which the threads were created. *)
Example last_created_first :
  option_map (fun c => map w_seq (threads c))
    (exec sample_env sample_schedule (boot sample_env)) = Some [8; 7; 6; 5; 4; 3; 2].
Proof. vm_compute. reflexivity. Qed.

(** When the workers take turns, the seven reset codes reach [std::cout]
    after all seven blocks. *)
Example round_robin_resets_trail :
  option_map (fun c => skipn 16 (cout (globals c)))
    (exec sample_env round_robin_schedule (boot sample_env)) = Some (repeat reset_code 7).
Proof. vm_compute. reflexivity. Qed.

(** * Further properties of the program *)

(** ** Every state a schedule can reach *)

Section Runs.

Variable e : env.

Lemma reachable_invariant (sched : list nat) (c : config) :
  exec e sched (boot e) = Some c -> invariant e c.
Proof. intros Hexec. exact (exec_invariant e sched _ _ (boot_invariant e) Hexec). Qed.

Lemma exec_app (s1 s2 : list nat) : forall c,
  exec e (s1 ++ s2) c =
  match exec e s1 c with Some c1 => exec e s2 c1 | None => None end.
Proof.
  induction s1 as [| i s1 IH]; intros c; cbn [app exec]; [reflexivity |].
  destruct (step e c i); [apply IH | reflexivity].
Qed.

Lemma exec_progress (sched : list nat) : forall c c',
  exec e sched c = Some c' -> progress c' = (progress c + length sched)%nat.
Proof.
  induction sched as [| i sched IH]; intros c c' Hexec; cbn [exec length] in *.
  - injection Hexec as <-. lia.
  - destruct (step e c i) as [c1 |] eqn:Hstep; [| discriminate].
    rewrite (IH c1 c' Hexec), (step_progress e c c1 i Hstep). lia.
Qed.

Lemma finished_progress (l : list worker) :
  Forall (fun w => w_pc w = Finished) l ->
  list_sum (map (fun w => pc_index (w_pc w)) l) = (4 * length l)%nat.
Proof.
  induction 1 as [| w l Hw _ IH]; [reflexivity |].
  cbn [map length]. rewrite list_sum_cons, IH, Hw. cbn [pc_index]. lia.
Qed.

(** X1: whatever the schedule, in every state the program reaches the
    sequence numbers obtained so far, the 1 of [main] and those of the
    workers that have done their [fetch_add], are pairwise distinct; the
    workers' numbers lie between 2 and the counter, which is 2 plus the
    number of workers that have fetched and never exceeds 9. *)
Theorem sequence_numbers_unique_in_every_state (sched : list nat) (c : config) :
  exec e sched (boot e) = Some c ->
  List.NoDup (1 :: flat_map seq_taken (threads c))
  /\ (forall s, In s (flat_map seq_taken (threads c)) -> 2 <= s < seq_counter (globals c))
  /\ seq_counter (globals c) = 2 + Z.of_nat (length (flat_map seq_taken (threads c)))
  /\ seq_counter (globals c) <= 9.
Proof.
  intros Hexec. pose proof (reachable_invariant sched c Hexec) as Hinv.
  pose proof (inv_seqs e c Hinv) as Hperm. pose proof (inv_counter e c Hinv) as Hcnt.
  assert (Hrange : forall s, In s (flat_map seq_taken (threads c)) ->
                             2 <= s < seq_counter (globals c)).
  { intros s Hs. apply (Permutation_in _ Hperm) in Hs. apply zrange_In in Hs. lia. }
  split; [| split; [exact Hrange | split; [exact Hcnt |]]].
  - apply List.NoDup_cons.
    + intros H1. apply Hrange in H1. lia.
    + apply (Permutation.Permutation_NoDup (Permutation_sym Hperm)), zrange_NoDup.
  - assert (length (flat_map seq_taken (threads c)) <= length (threads c))%nat.
    { clear. induction (threads c) as [| x l IH]; cbn [flat_map length]; [lia |].
      rewrite length_app. unfold seq_taken at 1. destruct (w_pc x); cbn [length]; lia. }
    pose proof (threads_length e c Hinv).
    unfold worker_count, foo_count, free_count in *. lia.
Qed.

(** X2: a thread that [main] has joined has returned from
    [print_thread_output] and its block is on [std::cout]; when [main]
    returns, it has created and joined all seven threads. *)
Theorem join_completeness (sched : list nat) (c : config) :
  exec e sched (boot e) = Some c ->
  (forall j w, (worker_count + j < main_pc c)%nat -> threads c !! j = Some w ->
     w_pc w = Finished /\ In (worker_block e w) (cout (globals c)))
  /\ (main_returned c = true ->
        length (threads c) = 7%nat /\ main_pc c = 14%nat /\
        Forall (fun w => w_pc w = Finished) (threads c)).
Proof.
  intros Hexec. pose proof (reachable_invariant sched c Hexec) as Hinv. split.
  - intros j w Hj Hw.
    assert (Hfin : w_pc w = Finished) by (apply (inv_joined e c Hinv j w); [lia | exact Hw]).
    split; [exact Hfin |].
    destruct (inv_cout e c Hinv) as (rest & Hcout & Hperm).
    rewrite Hcout. apply in_or_app. right.
    apply (Permutation_in _ (Permutation_sym Hperm)).
    apply in_flat_map. exists w. split.
    + apply list_elem_of_In. now apply (list_elem_of_lookup_2 _ j).
    + unfold inserted_by. rewrite Hfin. now left.
  - intros Hret. destruct (returned_main_pc e c Hinv Hret) as [Hpc Hlen].
    split; [exact Hlen |]. split; [exact Hpc |].
    exact (returned_all_finished e c Hinv Hret).
Qed.

(** X3: after the startup of [main] the program performs at most 42
    actions, 14 by [main] and 4 by each worker; a run has performed all 42
    exactly when [main] has returned, so no schedule runs forever. *)
Theorem run_length (sched : list nat) (c : config) :
  exec e sched (boot e) = Some c ->
  length sched = progress c
  /\ (length sched <= 42)%nat
  /\ (main_returned c = true <-> length sched = 42%nat).
Proof.
  intros Hexec. pose proof (reachable_invariant sched c Hexec) as Hinv.
  pose proof (exec_progress sched _ _ Hexec) as Hp.
  change (progress (boot e)) with 0%nat in Hp. cbn [Nat.add] in Hp.
  pose proof (progress_bound e c Hinv) as Hb.
  change (6 * worker_count)%nat with 42%nat in Hb.
  split; [lia |]. split; [lia |]. split.
  - intros Hret. destruct (returned_main_pc e c Hinv Hret) as [Hpc Hlen].
    rewrite <- Hp. unfold progress.
    rewrite (finished_progress _ (returned_all_finished e c Hinv Hret)), Hpc, Hlen.
    reflexivity.
  - intros Hlen. destruct (main_returned c) eqn:Hret; [reflexivity | exfalso].
    destruct (no_deadlock e c Hinv Hret) as (i & c1 & Hstep).
    pose proof (step_progress e c c1 i Hstep) as Hp1.
    pose proof (progress_bound e c1 (step_invariant e c c1 i Hinv Hstep)) as Hb1.
    change (6 * worker_count)%nat with 42%nat in Hb1. lia.
Qed.

(** X4: the program cannot get stuck: in every state a schedule reaches
    in which [main] has not returned some thread can act, and the run can be
    continued until [main] returns. *)
Theorem no_stuck_state (sched : list nat) (c : config) :
  exec e sched (boot e) = Some c ->
  (main_returned c = false -> exists i c1, step e c i = Some c1)
  /\ exists rest c', exec e (sched ++ rest) (boot e) = Some c' /\ main_returned c' = true.
Proof.
  intros Hexec. pose proof (reachable_invariant sched c Hexec) as Hinv. split.
  - exact (no_deadlock e c Hinv).
  - destruct (run_completes e (6 * worker_count) c Hinv ltac:(lia)) as (rest & c' & Hrest & Hret).
    exists rest, c'. split; [| exact Hret]. now rewrite exec_app, Hexec.
Qed.

End Runs.

Lemma sequence_numbers_unique_in_every_state_witness :
  exists c, exec sample_env (repeat 0%nat 7 ++ [3; 1; 3; 5]%nat) (boot sample_env) = Some c
            /\ flat_map seq_taken (threads c) = [3; 2; 4]
            /\ List.NoDup (1 :: flat_map seq_taken (threads c)).
Proof.
  eexists. split; [vm_compute; reflexivity |]. split; [vm_compute; reflexivity |].
  apply (sequence_numbers_unique_in_every_state sample_env (repeat 0%nat 7 ++ [3; 1; 3; 5]%nat)).
  vm_compute; reflexivity.
Defined.

Lemma join_completeness_witness :
  exists c, exec sample_env round_robin_schedule (boot sample_env) = Some c
            /\ main_returned c = true
            /\ Forall (fun w => w_pc w = Finished) (threads c).
Proof.
  eexists. split; [vm_compute; reflexivity |]. split; [vm_compute; reflexivity |].
  apply (join_completeness sample_env round_robin_schedule); vm_compute; reflexivity.
Defined.

Lemma run_length_witness :
  exists c, exec sample_env sample_schedule (boot sample_env) = Some c
            /\ (main_returned c = true <-> length sample_schedule = 42%nat).
Proof.
  eexists. split; [vm_compute; reflexivity |].
  apply (run_length sample_env sample_schedule). vm_compute; reflexivity.
Defined.

Lemma no_stuck_state_witness :
  exists c, exec sample_env (repeat 0%nat 7 ++ [3; 1; 3; 5]%nat) (boot sample_env) = Some c
            /\ exists rest c',
                 exec sample_env ((repeat 0%nat 7 ++ [3; 1; 3; 5]%nat) ++ rest) (boot sample_env)
                 = Some c' /\ main_returned c' = true.
Proof.
  eexists. split; [vm_compute; reflexivity |].
  eapply (no_stuck_state sample_env (repeat 0%nat 7 ++ [3; 1; 3; 5]%nat)).
  vm_compute; reflexivity.
Defined.

(** ** What a step never undoes *)

Section Monotone.

Variable e : env.

Lemma step_extends (c c' : config) (i : nat) :
  step e c i = Some c' ->
  (exists out, cout (globals c') = cout (globals c) ++ out)
  /\ (exists new, map w_task (threads c') = map w_task (threads c) ++ new)
  /\ (main_pc c <= main_pc c')%nat
  /\ (clock_reads (globals c) <= clock_reads (globals c'))%nat.
Proof.
  destruct i as [| j]; cbn [step].
  - unfold main_step, spawn.
    destruct (main_pc c <? foo_count)%nat;
      [| destruct (main_pc c <? foo_count + free_count)%nat].
    1-2: intros [= <-]; cbn [globals threads main_pc];
         (split; [exists []; now rewrite app_nil_r |]);
         (split; [eexists; now rewrite map_app |]); split; lia.
    destruct (threads c !! _) as [w |]; [| discriminate].
    destruct (w_pc w); try discriminate. intros [= <-]. cbn [globals threads main_pc].
    split; [exists []; now rewrite app_nil_r |].
    split; [exists []; now rewrite app_nil_r |]. split; lia.
  - destruct (threads c !! j) as [w |] eqn:Hw; [| discriminate].
    destruct (worker_step e w (globals c)) as [[w' g'] |] eqn:Hws; [| discriminate].
    intros [= <-]. cbn [globals threads main_pc].
    assert (Ht : w_task w' = w_task w /\
                 (exists out, cout g' = cout (globals c) ++ out) /\
                 (clock_reads (globals c) <= clock_reads g')%nat).
    { unfold worker_step in Hws. destruct (w_pc w); cbn in Hws; try discriminate;
        injection Hws as <- <-; cbn [w_task cout clock_reads];
        (split; [reflexivity |]); (split; [| lia]);
        first [ exists []; now rewrite app_nil_r | eexists; reflexivity ]. }
    destruct Ht as (Ht & Hout & Hclk).
    split; [exact Hout |]. split; [| split; [lia | exact Hclk]].
    exists []. rewrite app_nil_r. exact (map_task_insert _ j w w' Hw Ht).
Qed.

(** X5: running the program never takes anything back: from any state and
    along any schedule, [std::cout] only grows at its end, the vector of
    threads only grows at its end and no thread changes its task, [main]
    never goes back in its loops and the clock is only read forward. *)
Theorem runs_only_extend (sched : list nat) : forall c c',
  exec e sched c = Some c' ->
  (exists out, cout (globals c') = cout (globals c) ++ out)
  /\ (exists new, map w_task (threads c') = map w_task (threads c) ++ new)
  /\ (main_pc c <= main_pc c')%nat
  /\ (clock_reads (globals c) <= clock_reads (globals c'))%nat.
Proof.
  induction sched as [| i sched IH]; intros c c' Hexec; cbn [exec] in Hexec.
  - injection Hexec as <-.
    split; [exists []; now rewrite app_nil_r |].
    split; [exists []; now rewrite app_nil_r |]. split; lia.
  - destruct (step e c i) as [c1 |] eqn:Hstep; [| discriminate].
    destruct (step_extends c c1 i Hstep) as ((o1 & Ho1) & (n1 & Hn1) & Hm1 & Hc1).
    destruct (IH c1 c' Hexec) as ((o2 & Ho2) & (n2 & Hn2) & Hm2 & Hc2).
    split; [exists (o1 ++ o2); now rewrite Ho2, Ho1, app_assoc |].
    split; [exists (n1 ++ n2); now rewrite Hn2, Hn1, app_assoc |]. split; lia.
Qed.

Lemma step_indices (c c' : config) (i : nat) :
  step e c i = Some c' ->
  (forall j w, threads c !! j = Some w -> w_self w = S j) ->
  forall j w, threads c' !! j = Some w -> w_self w = S j.
Proof.
  intros Hstep Hidx. destruct i as [| k]; cbn [step] in Hstep.
  - unfold main_step, spawn in Hstep.
    assert (Hspawn : forall t j w,
              (threads c ++ [new_worker t (S (length (threads c)))]) !! j = Some w ->
              w_self w = S j).
    { intros t j w Hj. apply lookup_app_Some in Hj. destruct Hj as [Hj | [Hlen Hj]].
      - now apply Hidx.
      - apply list_lookup_singleton_Some in Hj. destruct Hj as [Hz <-].
        cbn [new_worker w_self]. f_equal. lia. }
    destruct (main_pc c <? foo_count)%nat;
      [| destruct (main_pc c <? foo_count + free_count)%nat].
    1-2: injection Hstep as <-; cbn [threads]; apply Hspawn.
    destruct (threads c !! _) as [w0 |]; [| discriminate].
    destruct (w_pc w0); try discriminate. injection Hstep as <-. exact Hidx.
  - destruct (threads c !! k) as [w0 |] eqn:Hw; [| discriminate].
    destruct (worker_step e w0 (globals c)) as [[w' g'] |] eqn:Hws; [| discriminate].
    injection Hstep as <-. cbn [threads]. intros j w Hj.
    assert (Hself : w_self w' = w_self w0).
    { unfold worker_step in Hws. destruct (w_pc w0); cbn in Hws; try discriminate;
        now injection Hws as <- _. }
    destruct (Nat.eq_dec k j) as [-> | Hne].
    + rewrite list_lookup_insert_eq in Hj by (now apply lookup_lt_Some in Hw).
      injection Hj as <-. rewrite Hself. now apply Hidx.
    + rewrite list_lookup_insert_ne in Hj by exact Hne. now apply Hidx.
Qed.

Lemma exec_indices (sched : list nat) : forall c c',
  exec e sched c = Some c' ->
  (forall j w, threads c !! j = Some w -> w_self w = S j) ->
  forall j w, threads c' !! j = Some w -> w_self w = S j.
Proof.
  induction sched as [| i sched IH]; intros c c' Hexec Hidx; cbn [exec] in Hexec.
  - now injection Hexec as <-.
  - destruct (step e c i) as [c1 |] eqn:Hstep; [| discriminate].
    apply (IH c1 c' Hexec). now apply (step_indices c c1 i).
Qed.

(** X6: in every state the program reaches, the [j]-th element of
    [threads] runs the [j]-th task that [main] creates and has thread index
    [j + 1], so that the color, the label, the function name and the thread
    identifier of its block are fixed by its position; only the timestamp
    and the sequence number depend on the schedule. *)
Theorem worker_identity (sched : list nat) (c : config) (j : nat) (w : worker) :
  exec e sched (boot e) = Some c ->
  threads c !! j = Some w ->
  all_tasks !! j = Some (w_task w)
  /\ w_self w = S j
  /\ worker_block e w =
       compose_block (task_color (w_task w)) (w_ts w) (w_seq w)
         (task_label (w_task w)) (task_func (w_task w)) (thread_id_text e (S j)).
Proof.
  intros Hexec Hw.
  assert (Hself : w_self w = S j).
  { apply (exec_indices sched (boot e) c Hexec); [| exact Hw].
    intros k w0 Hk. cbn in Hk. discriminate. }
  split; [| split; [exact Hself |]].
  - pose proof (inv_tasks e c (exec_invariant e sched _ _ (boot_invariant e) Hexec)) as Ht.
    assert (Hm : map w_task (threads c) !! j = Some (w_task w)).
    { change (map w_task (threads c)) with (w_task <$> threads c).
      rewrite list_lookup_fmap, Hw. reflexivity. }
    rewrite Ht in Hm. apply lookup_take_Some in Hm. tauto.
  - unfold worker_block. now rewrite Hself.
Qed.

End Monotone.

Lemma runs_only_extend_witness :
  exists c, exec sample_env [3; 1; 3; 3]%nat
              {| globals := init_world; main_pc := 7;
                 threads := map (fun k => new_worker (FreeTask (Z.of_nat k)) (S k)) (seq 0 3) |}
            = Some c
            /\ (exists out, cout (globals c) = cout init_world ++ out).
Proof.
  set (c0 := {| globals := init_world; main_pc := 7%nat;
                threads := map (fun k => new_worker (FreeTask (Z.of_nat k)) (S k))
                               (seq 0 3) |}).
  destruct (exec sample_env [3; 1; 3; 3]%nat c0) as [c |] eqn:E;
    [| vm_compute in E; discriminate E].
  exists c. split; [reflexivity |].
  exact (proj1 (runs_only_extend sample_env [3; 1; 3; 3]%nat c0 c E)).
Defined.

Lemma worker_identity_witness :
  exists c w, exec sample_env round_robin_schedule (boot sample_env) = Some c
              /\ threads c !! 4%nat = Some w
              /\ w_task w = FreeTask 1 /\ w_self w = 5%nat.
Proof.
  eexists. eexists. split; [vm_compute; reflexivity |]. split; [vm_compute; reflexivity |].
  split; [vm_compute; reflexivity |].
  eapply (worker_identity sample_env round_robin_schedule _ 4%nat); vm_compute; reflexivity.
Defined.

(** ** One thread at a time *)

Section Sequential.

Variable e : env.

(** X7: a worker that performs its four actions without any other thread
    acting in between has the effect of a plain call of its task on the
    global objects: the step model cuts [print_thread_output] into atomic
    actions and changes nothing else. *)
Theorem uninterrupted_worker_runs_task (c : config) (j : nat) (t : task) (self : nat) :
  threads c !! j = Some (new_worker t self) ->
  exec e (repeat (S j) 4) c =
    Some {| globals := snd (task_body e self t (globals c));
            main_pc := main_pc c;
            threads :=
              <[j := {| w_task := t; w_self := self; w_pc := Finished;
                        w_seq := seq_counter (globals c);
                        w_ts := format_timestamp e (clock e (clock_reads (globals c))) |}]>
                (threads c) |}.
Proof.
  intros Hw. pose proof (lookup_lt_Some _ _ _ Hw) as Hlt.
  cbn [repeat exec]. unfold step at 1. rewrite Hw.
  unfold worker_step at 1. cbn [new_worker w_pc w_task w_self w_seq w_ts fetch_add].
  unfold step at 1. cbn [threads globals main_pc].
  rewrite list_lookup_insert_eq by exact Hlt.
  unfold worker_step at 1. cbn [w_pc w_task w_self w_seq w_ts current_timestamp bind
                                 system_clock_now ret].
  unfold step at 1. cbn [threads globals main_pc].
  rewrite list_lookup_insert_eq by (rewrite length_insert; exact Hlt).
  unfold worker_step at 1. cbn [w_pc w_task w_self w_seq w_ts cout_insert].
  unfold step at 1. cbn [threads globals main_pc].
  rewrite list_lookup_insert_eq by (rewrite !length_insert; exact Hlt).
  unfold worker_step at 1. cbn [w_pc w_task w_self w_seq w_ts cout_insert].
  rewrite !list_insert_insert_eq.
  destruct t; reflexivity.
Qed.

Lemma flat_map_seq_shift {B} (f : nat -> list B) (n : nat) : forall a,
  flat_map f (seq (S a) n) = flat_map (fun k => f (S k)) (seq a n).
Proof.
  induction n as [| n IH]; intros a; cbn [seq flat_map]; [reflexivity |].
  now rewrite IH.
Qed.

(** X8: when one thread calls [print_thread_output] [n] times in a row,
    [std::cout] receives [n] blocks, each followed by its reset code, in
    call order; the [k]-th block carries the counter's value advanced by
    [k] (reduced to the range of [int]) and the [k]-th clock reading, and
    afterwards the counter has advanced by [n] and the clock has been read
    [n] times. *)
Theorem repeated_emits_in_call_order
    (self : nat) (color label func_name : string) (n : nat) :
  forall w,
  INT_MIN <= seq_counter w <= INT_MAX ->
  cout (snd (repeatM n (print_thread_output e self color label func_name) w)) =
    cout w ++
    flat_map (fun k =>
                [compose_block color (format_timestamp e (clock e (clock_reads w + k)))
                   (wrap_int (seq_counter w + Z.of_nat k)) label func_name
                   (thread_id_text e self);
                 reset_code]) (seq 0 n)
  /\ seq_counter (snd (repeatM n (print_thread_output e self color label func_name) w))
     = wrap_int (seq_counter w + Z.of_nat n)
  /\ clock_reads (snd (repeatM n (print_thread_output e self color label func_name) w))
     = (clock_reads w + n)%nat.
Proof.
  induction n as [| n IH]; intros w Hw.
  - cbn [repeatM ret snd seq flat_map]. rewrite app_nil_r, Z.add_0_r, Nat.add_0_r.
    rewrite wrap_int_small by exact Hw. auto.
  - rewrite repeatM_S, print_thread_output_run.
    set (w1 := {| seq_counter := wrap_int (seq_counter w + 1); cout := _;
                  clock_reads := S (clock_reads w) |}).
    destruct (IH w1 (wrap_int_range _)) as (Hout & Hcnt & Hclk).
    destruct (repeatM n (print_thread_output e self color label func_name) w1) as [rest w2].
    cbn [snd] in *. subst w1. cbn [seq_counter cout clock_reads] in *.
    split; [| split].
    + rewrite Hout. cbn [seq flat_map]. rewrite <- !app_assoc. f_equal.
      rewrite Nat.add_0_r, Z.add_0_r, (wrap_int_small (seq_counter w)) by exact Hw.
      cbn [app]. do 2 f_equal.
      rewrite flat_map_seq_shift.
      apply flat_map_ext. intros k. rewrite wrap_int_idem_add.
      do 2 f_equal; [do 2 f_equal; lia | f_equal; lia].
    + rewrite Hcnt, wrap_int_idem_add. f_equal. lia.
    + rewrite Hclk. lia.
Qed.

End Sequential.

Lemma uninterrupted_worker_runs_task_witness :
  exists c, exec sample_env (repeat 0%nat 7) (boot sample_env) = Some c
            /\ threads c !! 2%nat = Some (new_worker (MemberTask 2 3) 3)
            /\ option_map globals (exec sample_env (repeat 3%nat 4) c)
               = Some (snd (task_body sample_env 3 (MemberTask 2 3) (globals c))).
Proof.
  destruct (exec sample_env (repeat 0%nat 7) (boot sample_env)) as [c |] eqn:E;
    [| vm_compute in E; discriminate E].
  assert (Hw : threads c !! 2%nat = Some (new_worker (MemberTask 2 3) 3)).
  { vm_compute in E. injection E as <-. reflexivity. }
  exists c. split; [reflexivity |]. split; [exact Hw |].
  rewrite (uninterrupted_worker_runs_task sample_env c 2 (MemberTask 2 3) 3 Hw).
  reflexivity.
Defined.

Lemma repeated_emits_in_call_order_witness :
  INT_MIN <= seq_counter init_world <= INT_MAX /\
  seq_counter (snd (repeatM 3 (print_thread_output sample_env 0 yellow "main" "main")
                      init_world)) = wrap_int (1 + 3).
Proof.
  split; [exact init_counter_in_range |].
  apply (repeated_emits_in_call_order sample_env 0 yellow "main" "main" 3 init_world).
  exact init_counter_in_range.
Defined.

(** ** What a timestamp tells and what it does not *)

Section TimeOfDay.

Variable e : env.

(** The text whenever the millisecond count is not negative. *)
Lemma format_timestamp_parse (now : Z) :
  0 <= Z.rem (duration_cast_milliseconds now) 1000 ->
  parse_timestamp (format_timestamp e now) =
  Some (tm_hour (localtime e (to_time_t now)), tm_min (localtime e (to_time_t now)),
        tm_sec (localtime e (to_time_t now)), Z.rem (duration_cast_milliseconds now) 1000).
Proof.
  intros Hms.
  destruct (localtime_ranges e (to_time_t now)) as (Hh & Hm & Hs).
  assert (Hlt : Z.rem (duration_cast_milliseconds now) 1000 < 1000).
  { generalize (duration_cast_milliseconds now). intros d.
    Z.to_euclidean_division_equations. lia. }
  unfold format_timestamp, put_time_HMS. cbv zeta.
  set (t := localtime e (to_time_t now)) in *.
  set (ms := Z.rem (duration_cast_milliseconds now) 1000) in *.
  rewrite !setw2_digits, setw3_digits by lia.
  rewrite parse_digits by (Z.div_mod_to_equations; lia).
  repeat f_equal; Z.div_mod_to_equations; lia.
Qed.

Lemma negative_millis_text (v : Z) :
  -1000 < v < 0 ->
  match list_ascii_of_string (Text.setw "0" 3 (Text.to_string v)) with
  | [a; b; c] => number_of [a; b; c] 0 = None
  | [_; _; _; _] => True
  | _ => False
  end.
Proof.
  intros Hv.
  set (f := fun u =>
              match list_ascii_of_string (Text.setw "0" 3 (Text.to_string (- (u + 1)))) with
              | [a; b; c] => match number_of [a; b; c] 0 with None => true | _ => false end
              | [_; _; _; _] => true
              | _ => false
              end).
  assert (H : f (- v - 1) = true)
    by (apply (bounded_check f 999); [vm_compute; reflexivity | lia]).
  subst f.
  cbv beta in H. replace (- (- v - 1 + 1)) with v in H by lia.
  destruct (list_ascii_of_string (Text.setw "0" 3 (Text.to_string v)))
    as [| a [| b [| c [| d [| x l]]]]]; try discriminate H; [| exact I].
  destruct (number_of [a; b; c] 0); [discriminate H | reflexivity].
Qed.

Lemma list_ascii_of_string_app (s1 s2 : string) :
  list_ascii_of_string (s1 ++ s2) = list_ascii_of_string s1 ++ list_ascii_of_string s2.
Proof. induction s1 as [| c s1 IH]; cbn; [reflexivity | now rewrite IH]. Qed.

(** X9: [current_timestamp] yields a text of the form dd:dd:dd.ddd
    exactly when the millisecond count it computes is not negative, which
    is the case for every reading at or after the epoch; for a reading
    before the epoch whose millisecond part is not zero the count is
    printed with its minus sign and the text does not have that form. *)
Theorem timestamp_well_formed_iff (now : Z) :
  let ms := Z.rem (duration_cast_milliseconds now) 1000 in
  (0 <= ms <->
   parse_timestamp (format_timestamp e now) =
   Some (tm_hour (localtime e (to_time_t now)), tm_min (localtime e (to_time_t now)),
         tm_sec (localtime e (to_time_t now)), ms))
  /\ (ms < 0 <-> parse_timestamp (format_timestamp e now) = None)
  /\ (0 <= now -> 0 <= ms)
  /\ (ms < 0 -> now <= - ticks_per_milli).
Proof.
  cbv zeta.
  assert (Hneg : Z.rem (duration_cast_milliseconds now) 1000 < 0 ->
                 parse_timestamp (format_timestamp e now) = None).
  { intros Hms.
    destruct (localtime_ranges e (to_time_t now)) as (Hh & Hm & Hs).
    assert (Hgt : -1000 < Z.rem (duration_cast_milliseconds now) 1000).
    { generalize (duration_cast_milliseconds now). intros d.
      Z.to_euclidean_division_equations. lia. }
    pose proof (negative_millis_text _ (conj Hgt Hms)) as Htxt.
    unfold format_timestamp, put_time_HMS. cbv zeta.
    set (t := localtime e (to_time_t now)) in *.
    set (s := Text.setw "0" 3 (Text.to_string (Z.rem (duration_cast_milliseconds now) 1000))) in *.
    rewrite !setw2_digits by lia.
    unfold parse_timestamp. rewrite list_ascii_of_string_app.
    cbn [append list_ascii_of_string app].
    destruct (list_ascii_of_string s) as [| a [| b [| c [| d [| x l]]]]];
      try contradiction; cbn [app]; [| reflexivity].
    change (Ascii.eqb ":" ":") with true. change (Ascii.eqb "." ".") with true.
    cbn [andb]. rewrite Htxt.
    cbn [number_of]. rewrite !digit_of_digit_char by (Z.div_mod_to_equations; lia).
    reflexivity. }
  split; [| split; [| split]].
  - split; [apply format_timestamp_parse |].
    intros Hp. destruct (Z_lt_ge_dec (Z.rem (duration_cast_milliseconds now) 1000) 0) as [Hlt | Hge];
      [| lia].
    rewrite (Hneg Hlt) in Hp. discriminate Hp.
  - split; [exact Hneg |].
    intros Hp. destruct (Z_lt_ge_dec (Z.rem (duration_cast_milliseconds now) 1000) 0) as [Hlt | Hge];
      [exact Hlt |].
    rewrite format_timestamp_parse in Hp by lia. discriminate Hp.
  - intros Hnow. unfold duration_cast_milliseconds, ticks_per_milli.
    Z.to_euclidean_division_equations. lia.
  - unfold duration_cast_milliseconds, ticks_per_milli.
    Z.to_euclidean_division_equations. lia.
Qed.

End TimeOfDay.

Lemma timestamp_well_formed_iff_witness :
  parse_timestamp (format_timestamp pre_epoch_env (-1000000)) = None.
Proof.
  apply (timestamp_well_formed_iff pre_epoch_env (-1000000)). vm_compute. reflexivity.
Defined.

Section SameMillisecond.

Variable e : env.

(** X12: readings at or after the epoch that fall into the same
    millisecond get the same text: the sub-millisecond part of a reading
    never shows. *)
Theorem timestamp_drops_sub_millisecond (a b : Z) :
  0 <= a -> 0 <= b -> a / ticks_per_milli = b / ticks_per_milli ->
  format_timestamp e a = format_timestamp e b.
Proof.
  intros Ha Hb Heq.
  assert (Ht : to_time_t a = to_time_t b).
  { unfold to_time_t, ticks_per_second, ticks_per_milli in *.
    Z.to_euclidean_division_equations. lia. }
  assert (Hms : duration_cast_milliseconds a = duration_cast_milliseconds b).
  { unfold duration_cast_milliseconds, ticks_per_milli in *.
    Z.to_euclidean_division_equations. lia. }
  unfold format_timestamp. cbv zeta. now rewrite Ht, Hms.
Qed.

End SameMillisecond.

Section TimeOfDayRoundTrip.

Variable e : env.
Variable offset : Z -> Z.
Hypothesis Hzone : posix_zone e offset.

Lemma time_of_day_split (now : Z) :
  0 <= now ->
  time_of_day_ms offset now =
  1000 * ((to_time_t now + offset (to_time_t now)) mod 86400)
  + Z.rem (duration_cast_milliseconds now) 1000
  /\ 0 <= Z.rem (duration_cast_milliseconds now) 1000 < 1000.
Proof.
  intros Hnow. unfold time_of_day_ms, duration_cast_milliseconds, to_time_t,
    ticks_per_second, ticks_per_milli.
  generalize (offset (now ÷ 1000000000)). intros off.
  split; Z.to_euclidean_division_equations; lia.
Qed.

Lemma fields_of_time_of_day (now : Z) :
  0 <= now ->
  tm_hour (localtime e (to_time_t now)) = time_of_day_ms offset now / 3600000
  /\ tm_min (localtime e (to_time_t now)) = (time_of_day_ms offset now / 60000) mod 60
  /\ tm_sec (localtime e (to_time_t now)) = (time_of_day_ms offset now / 1000) mod 60
  /\ Z.rem (duration_cast_milliseconds now) 1000 = time_of_day_ms offset now mod 1000.
Proof.
  intros Hnow. destruct (time_of_day_split now Hnow) as [Htod Hms].
  rewrite Htod, Hzone. unfold posix_tm. cbn [tm_hour tm_min tm_sec].
  generalize dependent (Z.rem (duration_cast_milliseconds now) 1000). intros ms _ Hms.
  generalize (to_time_t now + offset (to_time_t now)). intros local.
  repeat split; Z.div_mod_to_equations; lia.
Qed.

Lemma time_of_day_of_fields (now : Z) :
  0 <= now ->
  ((tm_hour (localtime e (to_time_t now)) * 60 + tm_min (localtime e (to_time_t now))) * 60
   + tm_sec (localtime e (to_time_t now))) * 1000
  + Z.rem (duration_cast_milliseconds now) 1000 = time_of_day_ms offset now.
Proof.
  intros Hnow. destruct (time_of_day_split now Hnow) as [Htod Hms].
  rewrite Htod, Hzone. unfold posix_tm. cbn [tm_hour tm_min tm_sec].
  generalize (Z.rem (duration_cast_milliseconds now) 1000). intros ms.
  generalize (to_time_t now + offset (to_time_t now)). intros local.
  Z.div_mod_to_equations. lia.
Qed.

Lemma format_of_time_of_day (a b : Z) :
  0 <= a -> 0 <= b -> time_of_day_ms offset a = time_of_day_ms offset b ->
  format_timestamp e a = format_timestamp e b.
Proof.
  intros Ha Hb Htod.
  destruct (fields_of_time_of_day a Ha) as (Hh & Hm & Hs & Hms).
  destruct (fields_of_time_of_day b Hb) as (Hh' & Hm' & Hs' & Hms').
  unfold format_timestamp, put_time_HMS. cbv zeta.
  rewrite Htod in *. congruence.
Qed.

(** X10: on a platform whose local time is that of a zone without leap
    seconds, for readings at or after the epoch the text is the local time
    of day and nothing else: reading the text back gives hour, minute,
    second and millisecond that add up to the milliseconds since local
    midnight, and two readings give the same text exactly when their local
    times of day agree to the millisecond. *)
Theorem timestamp_is_time_of_day (a b : Z) :
  0 <= a -> 0 <= b ->
  (exists h m s ms,
     parse_timestamp (format_timestamp e a) = Some (h, m, s, ms)
     /\ ((h * 60 + m) * 60 + s) * 1000 + ms = time_of_day_ms offset a)
  /\ (format_timestamp e a = format_timestamp e b
      <-> time_of_day_ms offset a = time_of_day_ms offset b).
Proof.
  intros Ha Hb.
  destruct (time_of_day_split a Ha) as [_ Hmsa].
  destruct (time_of_day_split b Hb) as [_ Hmsb].
  split.
  - eexists _, _, _, _. split; [apply format_timestamp_parse; lia |].
    now apply time_of_day_of_fields.
  - split; [| now apply format_of_time_of_day].
    intros Heq. apply (f_equal parse_timestamp) in Heq.
    rewrite !format_timestamp_parse in Heq by lia.
    apply (f_equal (fun o : option (Z * Z * Z * Z) =>
                      match o with
                      | Some (h, m, s, ms) => ((h * 60 + m) * 60 + s) * 1000 + ms
                      | None => 0
                      end)) in Heq.
    cbv beta iota in Heq.
    now rewrite (time_of_day_of_fields a Ha), (time_of_day_of_fields b Hb) in Heq.
Qed.

(** X11: on a platform whose local time is that of a zone without leap
    seconds the text carries no date: two readings at or after the epoch
    that lie a whole number of days apart, at moments with the same UTC
    offset, get the same text. *)
Theorem timestamp_carries_no_date (now days : Z) :
  0 <= now -> 0 <= days ->
  offset (to_time_t (now + days * (86400 * ticks_per_second)))
  = offset (to_time_t now) ->
  format_timestamp e (now + days * (86400 * ticks_per_second)) = format_timestamp e now.
Proof.
  intros Hnow Hdays Hoff.
  apply format_of_time_of_day; [unfold ticks_per_second; lia | exact Hnow |].
  unfold time_of_day_ms. rewrite Hoff.
  generalize (offset (to_time_t now)). intros off.
  unfold ticks_per_second, ticks_per_milli.
  Z.div_mod_to_equations. lia.
Qed.

End TimeOfDayRoundTrip.

Lemma sample_env_posix : posix_zone sample_env (fun _ => 3600).
Proof. intros t. reflexivity. Qed.

Lemma timestamp_is_time_of_day_witness :
  posix_zone sample_env (fun _ => 3600) /\
  0 <= 1717245296789000000 /\ 0 <= 1717331696789999999 /\
  format_timestamp sample_env 1717245296789000000
  = format_timestamp sample_env 1717331696789999999.
Proof.
  assert (Ha : 0 <= 1717245296789000000) by lia.
  assert (Hb : 0 <= 1717331696789999999) by lia.
  split; [exact sample_env_posix |]. split; [exact Ha |]. split; [exact Hb |].
  apply (timestamp_is_time_of_day sample_env _ sample_env_posix _ _ Ha Hb).
  vm_compute. reflexivity.
Defined.

Lemma timestamp_carries_no_date_witness :
  posix_zone sample_env (fun _ => 3600) /\
  format_timestamp sample_env (clock sample_env 0 + 365 * (86400 * ticks_per_second))
  = format_timestamp sample_env (clock sample_env 0).
Proof.
  split; [exact sample_env_posix |].
  apply (timestamp_carries_no_date sample_env _ sample_env_posix (clock sample_env 0) 365);
    vm_compute; try reflexivity; discriminate.
Defined.

Lemma timestamp_drops_sub_millisecond_witness :
  format_timestamp sample_env 1717245296789000000
  = format_timestamp sample_env 1717245296789999999.
Proof.
  apply (timestamp_drops_sub_millisecond sample_env); vm_compute; try reflexivity; discriminate.
Defined.

(** ** What the schedule may do *)

Section Orders.

Variable e : env.

(** X13: sequence numbers follow the order of the [fetch_add]s, not the
    order of the output: on every platform there is a complete run in which
    the block of the second thread, which carries number 3, reaches
    [std::cout] before the block of the first thread, which carries
    number 2. *)
Theorem sequence_order_is_not_output_order :
  exists sched c w0 w1 post,
    exec e sched (boot e) = Some c
    /\ main_returned c = true
    /\ threads c !! 0%nat = Some w0 /\ threads c !! 1%nat = Some w1
    /\ w_seq w0 = 2 /\ w_seq w1 = 3
    /\ cout (globals c) =
       cout (globals (boot e)) ++ worker_block e w1 :: worker_block e w0 :: post.
Proof.
  exists (repeat 0 7 ++ [1; 2; 2; 2; 1; 1; 1; 2]
          ++ flat_map (fun j => repeat (S j) 4) [2; 3; 4; 5; 6] ++ repeat 0 7)%nat.
  eexists _, _, _, _.
  split; [cbv - [format_timestamp compose_block thread_id_text]; reflexivity |].
  repeat split.
Qed.

(** X14: the reset code of a block is a separate insertion and need not
    follow its block: on every platform there is a complete run in which
    the block of the first thread is directly followed by the block of the
    second thread, and the two reset codes come only after both blocks. *)
Theorem reset_code_can_trail_foreign_block :
  exists sched c w0 w1 post,
    exec e sched (boot e) = Some c
    /\ main_returned c = true
    /\ threads c !! 0%nat = Some w0 /\ threads c !! 1%nat = Some w1
    /\ cout (globals c) =
       cout (globals (boot e))
       ++ worker_block e w0 :: worker_block e w1 :: reset_code :: reset_code :: post.
Proof.
  exists (repeat 0 7 ++ [1; 1; 1; 2; 2; 2; 1; 2]
          ++ flat_map (fun j => repeat (S j) 4) [2; 3; 4; 5; 6] ++ repeat 0 7)%nat.
  eexists _, _, _, _.
  split; [cbv - [format_timestamp compose_block thread_id_text]; reflexivity |].
  repeat split.
Qed.

End Orders.

(** ** Lines of a block *)

Section Lines.

(** X15: the emitter does not escape its arguments: the number of newline
    characters in a block is four plus those contained in the color, the
    timestamp, the label, the function name and the thread identifier, so a
    block spans exactly four lines only if none of them contains a
    newline; the sequence number never contributes one. *)
Theorem block_line_count (color ts : string) (seq : Z) (label func_name tid : string) :
  newlines (compose_block color ts seq label func_name tid) =
  (4 + newlines color + newlines ts + newlines label + newlines func_name + newlines tid)%nat.
Proof.
  unfold compose_block. rewrite !newlines_app, to_string_no_newline.
  change (newlines newline) with 1%nat. change (newlines separator) with 0%nat.
  change (newlines "[") with 0%nat. change (newlines "] ") with 0%nat.
  change (newlines "#") with 0%nat. change (newlines " [") with 0%nat.
  change (newlines "]") with 0%nat. change (newlines "  Function : ") with 0%nat.
  change (newlines "  Thread ID: ") with 0%nat. lia.
Qed.

End Lines.

(** * The text on the console *)

Lemma print_thread_output_block_structure_witness :
  newlines yellow = 0%nat /\ newlines "main" = 0%nat
  /\ newlines (thread_id_text sample_env 0) = 0%nat
  /\ exists text,
       Text.flatten (cout (snd (print_thread_output sample_env 0 yellow "main" "main"
                                  init_world))) = text
       /\ split_lines text =
          [String "027"%char "[33m[13:34:56.789] #1 [main]"; "  Function : main";
           "  Thread ID: 140000"; "---------------------------------";
           String "027"%char "[0m"]%string.
Proof.
  split; [reflexivity |]. split; [reflexivity |]. split; [reflexivity |].
  destruct (print_thread_output_block_structure sample_env 0 yellow "main" "main" init_world
              eq_refl eq_refl eq_refl eq_refl) as (text & Htext & Hlines & _).
  exists text. split; [exact Htext | exact Hlines].
Defined.

(** C4 as stated fails for a label that contains a line feed: with the
    label "a", line feed, "b" the second line of the block is "b]" and the
    function name only comes on the third of five lines. *)
Lemma label_with_line_feed_breaks_lines :
  split_lines
    (Text.flatten
       (cout (snd (print_thread_output sample_env 0 yellow
                     (String "a" (String "010" "b")) "main" init_world)))) =
  [String "027"%char "[33m[13:34:56.789] #1 [a"; "b]"; "  Function : main";
   "  Thread ID: 140000"; "---------------------------------";
   String "027"%char "[0m"]%string.
Proof. reflexivity. Qed.

Section Startup.

Variable e : env.

(** C8: after its own log block [main] inserts the pieces of a text that
    splits at its line feeds into the line
    "[TIMESTAMP] Hardware concurrency: N", a line of 33 dashes, and nothing
    after the second line feed.  TIMESTAMP is what [current_timestamp]
    returns at that moment, of the form dd:dd:dd.ddd for a reading at or
    after the epoch as in every log block; N is the decimal text of the
    unsigned value the platform reports; the line of dashes is the one that
    ends every log block. *)
Theorem main_hardware_concurrency_line :
  let after_block := snd (print_thread_output e 0 yellow "main" "main" init_world) in
  let ts := fst (current_timestamp e after_block) in
  exists pieces,
    cout (snd (main_startup e init_world)) = cout after_block ++ pieces
    /\ split_lines (Text.flatten pieces) =
       [("[" ++ ts ++ "] Hardware concurrency: "
         ++ Text.to_string (Z.of_N (hardware e)))%string;
        "---------------------------------"%string;
        ""%string]
    /\ (0 <= clock e 1 -> exists h m s ms, parse_timestamp ts = Some (h, m, s, ms))
    /\ read_decimal (Text.to_string (Z.of_N (hardware e))) = Some (Z.of_N (hardware e))
    /\ 0 <= Z.of_N (hardware e)
    /\ (forall color ts' seq label func_name tid,
          exists lines,
            split_lines (compose_block color ts' seq label func_name tid)
            = lines ++ ["---------------------------------"; ""]%string).
Proof.
  cbv zeta. exists (hardware_line e).
  split; [reflexivity |]. split; [| split; [| split; [| split]]].
  - unfold hardware_line. cbn [Text.flatten fold_right]. rewrite append_empty_r.
    change (fst (current_timestamp e
                   (snd (print_thread_output e 0 yellow "main" "main" init_world))))
      with (format_timestamp e (clock e 1)).
    set (ts := format_timestamp e (clock e 1)).
    assert (Hts : newlines ts = 0%nat) by apply format_timestamp_no_newline.
    unfold newline, separator.
    replace ("[" ++ ts ++ "] " ++ "Hardware concurrency: "
             ++ Text.to_string (Z.of_N (hardware e)) ++ String Text.nl ""
             ++ "---------------------------------" ++ String Text.nl "")%string
      with (("[" ++ ts ++ "] Hardware concurrency: " ++ Text.to_string (Z.of_N (hardware e)))
            ++ String "010" ("---------------------------------" ++ String "010" ""))%string
      by (repeat rewrite string_app_assoc; reflexivity).
    rewrite split_lines_line
      by (rewrite !newlines_app, to_string_no_newline, Hts; reflexivity).
    rewrite split_lines_line by reflexivity. reflexivity.
  - intros Hnow.
    change (fst (current_timestamp e
                   (snd (print_thread_output e 0 yellow "main" "main" init_world))))
      with (format_timestamp e (clock e 1)).
    eexists _, _, _, _. apply format_timestamp_parse.
    unfold duration_cast_milliseconds, ticks_per_milli.
    Z.to_euclidean_division_equations. lia.
  - apply to_string_reads_back. lia.
  - lia.
  - intros color ts' seq label func_name tid.
    exists (split_lines (color ++ "[" ++ ts' ++ "] #" ++ Text.to_string seq ++ " [" ++ label
                         ++ "]" ++ String "010" ("  Function : " ++ func_name
                         ++ String "010" ("  Thread ID: " ++ tid)))%string).
    rewrite compose_block_spec. unfold spec_block, LF.
    rewrite <- (split_lines_app_lf _ ("---------------------------------" ++ String "010" "")).
    f_equal. repeat first [rewrite string_app_assoc | progress cbn [append]]. reflexivity.
Qed.

End Startup.

Section Console.

Variable e : env.

Lemma boot_console :
  threads (boot e) = []
  /\ cout (globals (boot e)) =
     [spec_block (String "027"%char "[33m") (format_timestamp e (clock e 0)) "1"
        "main" "main" (thread_id_text e 0);
      spec_reset] ++ hardware_line e.
Proof. split; reflexivity. Qed.

(** C6: [main] inserts its own block, which carries sequence number 1,
    and the hardware-concurrency line while no other thread exists; it then
    creates four member-function threads and three free-function threads.
    Whatever the schedule, once [main] has joined them all, [std::cout] has
    received after that startup output exactly seven more blocks, each with
    its reset code, in some order: one per worker, with the worker's color,
    label, function name and thread identifier, and with sequence numbers
    that are, together with the 1 of [main], the numbers 1 to 8 in some
    order. *)
Theorem main_emits_eight_blocks (sched : list nat) (c : config) :
  exec e sched (boot e) = Some c ->
  main_returned c = true ->
  threads (boot e) = []
  /\ cout (globals (boot e)) =
     [spec_block (String "027"%char "[33m") (format_timestamp e (clock e 0)) "1"
        "main" "main" (thread_id_text e 0);
      spec_reset] ++ hardware_line e
  /\ map w_task (threads c) =
       [MemberTask 0 1; MemberTask 1 2; MemberTask 2 3; MemberTask 3 4;
        FreeTask 1; FreeTask 2; FreeTask 3]
  /\ exists (seqs : list Z) (tss rest : list string),
       length seqs = 7%nat /\ length tss = 7%nat
       /\ Permutation (1 :: seqs) [1; 2; 3; 4; 5; 6; 7; 8]
       /\ (forall s, In s seqs -> read_decimal (Text.to_string s) = Some s)
       /\ cout (globals c) = cout (globals (boot e)) ++ rest
       /\ Permutation rest
            (flat_map
               (fun '(j, ((color, label, func_name), (s, ts))) =>
                  [spec_block color ts (Text.to_string s) label func_name
                     (thread_id_text e j);
                   spec_reset])
               (combine (seq 1 7) (combine spec_workers (combine seqs tss)))).
Proof.
  intros Hexec Hret.
  pose proof (exec_invariant e sched _ _ (boot_invariant e) Hexec) as Hinv.
  destruct (returned_main_pc e c Hinv Hret) as [Hpc Hlen].
  destruct (finished_contributions e _ (returned_all_finished e c Hinv Hret)) as [Hseqs Houts].
  destruct (inv_cout e c Hinv) as (rest & Hcout & Hperm).
  pose proof (inv_seqs e c Hinv) as Hnums.
  pose proof (inv_tasks e c Hinv) as Htasks.
  assert (Hidx : forall j w, threads c !! j = Some w -> w_self w = S j).
  { apply (exec_indices e sched (boot e) c Hexec). intros k w0 Hk. cbn in Hk. discriminate. }
  rewrite Houts in Hperm. rewrite Hseqs, length_map, Hlen in Hnums.
  rewrite Hpc in Htasks. change (firstn (2 * worker_count) all_tasks)
    with [MemberTask 0 1; MemberTask 1 2; MemberTask 2 3; MemberTask 3 4;
          FreeTask 1; FreeTask 2; FreeTask 3] in Htasks.
  change (zrange 2 worker_count) with [2; 3; 4; 5; 6; 7; 8] in Hnums.
  split; [reflexivity |]. split; [reflexivity |]. split; [exact Htasks |].
  exists (map w_seq (threads c)), (map w_ts (threads c)), rest.
  split; [now rewrite length_map |]. split; [now rewrite length_map |].
  split; [now apply perm_skip |]. split; [| split; [exact Hcout |]].
  - intros s Hs. apply to_string_reads_back.
    apply (Permutation_in _ Hnums) in Hs. cbn [In] in Hs. lia.
  - etransitivity; [exact Hperm |]. clear Hperm Hnums Hseqs Houts Hcout.
    destruct (threads c) as [| w0 [| w1 [| w2 [| w3 [| w4 [| w5 [| w6 [| w7 l]]]]]]]];
      try discriminate Hlen.
    pose proof (Hidx 0%nat w0 eq_refl) as H0. pose proof (Hidx 1%nat w1 eq_refl) as H1.
    pose proof (Hidx 2%nat w2 eq_refl) as H2. pose proof (Hidx 3%nat w3 eq_refl) as H3.
    pose proof (Hidx 4%nat w4 eq_refl) as H4. pose proof (Hidx 5%nat w5 eq_refl) as H5.
    pose proof (Hidx 6%nat w6 eq_refl) as H6.
    cbn [map] in Htasks. injection Htasks as T0 T1 T2 T3 T4 T5 T6.
    cbn [flat_map map combine seq spec_workers app]. unfold worker_block.
    rewrite T0, T1, T2, T3, T4, T5, T6, H0, H1, H2, H3, H4, H5, H6.
    reflexivity.
Qed.

(** Every block a worker has inserted is one piece of the console text:
    its four lines are never split by another thread's output. *)
Lemma blocks_stay_contiguous (sched : list nat) (c : config) (j : nat) (w : worker) :
  exec e sched (boot e) = Some c ->
  threads c !! j = Some w ->
  w_pc w = AtReset \/ w_pc w = Finished ->
  exists before after,
    Text.flatten (cout (globals c)) =
    (before ++ spec_block (task_color (w_task w)) (w_ts w) (Text.to_string (w_seq w))
                 (task_label (w_task w)) (task_func (w_task w)) (thread_id_text e (S j))
     ++ after)%string.
Proof.
  intros Hexec Hw Hpc.
  pose proof (exec_invariant e sched _ _ (boot_invariant e) Hexec) as Hinv.
  assert (Hself : w_self w = S j).
  { apply (exec_indices e sched (boot e) c Hexec); [| exact Hw].
    intros k w0 Hk. cbn in Hk. discriminate. }
  assert (Hin : In (worker_block e w) (cout (globals c))).
  { destruct (inv_cout e c Hinv) as (rest & Hcout & Hperm).
    rewrite Hcout. apply in_or_app. right.
    apply (Permutation_in _ (Permutation_sym Hperm)).
    apply in_flat_map. exists w. split.
    - apply list_elem_of_In. now apply (list_elem_of_lookup_2 _ j).
    - unfold inserted_by. destruct Hpc as [-> | ->]; now left. }
  apply in_split in Hin. destruct Hin as (l1 & l2 & Hsplit).
  exists (Text.flatten l1), (Text.flatten l2).
  rewrite Hsplit, flatten_app. cbn [Text.flatten fold_right].
  unfold worker_block. now rewrite compose_block_spec, Hself.
Qed.

(** C2, what the code does: the output of a call is its block and then,
    by a separate insertion, its reset code, and another thread's output can
    come in between.  On every platform there is a complete run in which
    the console text has the block of the first thread (number 2), directly
    followed by the whole block of the second thread (number 3), and only
    then the reset code of the first thread. *)
Theorem concurrent_emits_interleave :
  exists sched c ts1 ts2 after,
    exec e sched (boot e) = Some c
    /\ main_returned c = true
    /\ Text.flatten (cout (globals c)) =
       (Text.flatten (cout (globals (boot e)))
        ++ spec_block (String "027"%char "[34m") ts1 "2" "Foo::member_function #1"
             "member_function" (thread_id_text e 1)
        ++ spec_block (String "027"%char "[34m") ts2 "3" "Foo::member_function #2"
             "member_function" (thread_id_text e 2)
        ++ spec_reset ++ spec_reset ++ after)%string.
Proof.
  exists (repeat 0 7 ++ [1; 1; 1; 2; 2; 2; 1; 2]
          ++ flat_map (fun j => repeat (S j) 4) [2; 3; 4; 5; 6] ++ repeat 0 7)%nat.
  assert (H : exists c ts1 ts2 rest,
             exec e (repeat 0 7 ++ [1; 1; 1; 2; 2; 2; 1; 2]
                     ++ flat_map (fun j => repeat (S j) 4) [2; 3; 4; 5; 6]
                     ++ repeat 0 7)%nat (boot e) = Some c
             /\ main_returned c = true
             /\ cout (globals c) =
                cout (globals (boot e))
                ++ [spec_block (String "027"%char "[34m") ts1 "2" "Foo::member_function #1"
                      "member_function" (thread_id_text e 1);
                    spec_block (String "027"%char "[34m") ts2 "3" "Foo::member_function #2"
                      "member_function" (thread_id_text e 2);
                    spec_reset; spec_reset] ++ rest).
  { eexists _, _, _, _.
    split; [cbv - [format_timestamp compose_block thread_id_text]; reflexivity |].
    split; reflexivity. }
  destruct H as (c & ts1 & ts2 & rest & Hexec & Hret & Hcout).
  exists c, ts1, ts2, (Text.flatten rest).
  split; [exact Hexec |]. split; [exact Hret |].
  rewrite Hcout, !flatten_app. f_equal.
  cbn [Text.flatten fold_right]. rewrite append_empty_r.
  now rewrite !string_app_assoc.
Qed.

End Console.

Lemma main_emits_eight_blocks_witness :
  exists c seqs,
    exec sample_env round_robin_schedule (boot sample_env) = Some c
    /\ main_returned c = true
    /\ length seqs = 7%nat
    /\ Permutation (1 :: seqs) [1; 2; 3; 4; 5; 6; 7; 8].
Proof.
  destruct (exec sample_env round_robin_schedule (boot sample_env)) as [c |] eqn:E;
    [| vm_compute in E; discriminate E].
  assert (R : main_returned c = true).
  { vm_compute in E. injection E as <-. reflexivity. }
  destruct (main_emits_eight_blocks sample_env round_robin_schedule c E R)
    as (_ & _ & _ & seqs & tss & rest & Hlen & _ & Hperm & _).
  exists c, seqs. split; [reflexivity |]. split; [exact R |].
  split; [exact Hlen | exact Hperm].
Defined.
